(** * GoVPNUI: the status and connection parsing core of [main.go]

    A shallow embedding of the text-to-model extraction of the backend:
    [parseChildrenFromListConns], [parseChildrenFromListSas],
    [parseActiveChildrenFromListSas], [parseStatusToStats], [stripCommas],
    [parseInt64] and the pure part of [childrenJSONHandler], together with
    the parts of Go's [unicode/utf8], [regexp], [strings] and [sort]
    packages these functions call.

    Go strings are byte sequences: a [string] here is a sequence of bytes
    ([ascii]), and the regular expressions run over the runes decoded from
    it, as package [regexp] does. *)

From Stdlib Require Import ZArith List Ascii String Lia Bool.
From stdpp Require Import gmap strings list sorting.

(** The value of a byte. *)
Definition byteZ (c : ascii) : Z := Z.of_N (N_of_ascii c).

(** ** Package [unicode/utf8] *)
Module utf8.
Local Open Scope Z_scope.

Definition RuneError : Z := 65533.
Definition RuneSelf : Z := 128.

(** The table [first] with [acceptRanges]: for a leading byte, the size of
    the encoding and the range accepted for the second byte; [None] for a
    byte that cannot start a multi-byte encoding. *)
Definition first (s0 : Z) : option (nat * Z * Z) :=
  if s0 <? 194 then None
  else if s0 <=? 223 then Some (2%nat, 128, 191)
  else if s0 =? 224 then Some (3%nat, 160, 191)
  else if s0 <=? 236 then Some (3%nat, 128, 191)
  else if s0 =? 237 then Some (3%nat, 128, 159)
  else if s0 <=? 239 then Some (3%nat, 128, 191)
  else if s0 =? 240 then Some (4%nat, 144, 191)
  else if s0 <=? 243 then Some (4%nat, 128, 191)
  else if s0 =? 244 then Some (4%nat, 128, 143)
  else None.

(** [locb <= b <= hicb] *)
Definition cont_byte (b : Z) : bool := (128 <=? b) && (b <=? 191).

(** [utf8.DecodeRuneInString]: the first rune of [s] and its width in
    bytes; an invalid encoding is [RuneError] of width 1. *)
Definition DecodeRuneInString (s : string) : Z * nat :=
  match s with
  | EmptyString => (RuneError, 0%nat)
  | String c0 t0 =>
    let s0 := byteZ c0 in
    if s0 <? RuneSelf then (s0, 1%nat)
    else match first s0 with
    | None => (RuneError, 1%nat)
    | Some (sz, lo, hi) =>
      if (String.length s <? sz)%nat then (RuneError, 1%nat)
      else match t0 with
      | EmptyString => (RuneError, 1%nat)
      | String c1 t1 =>
        let s1 := byteZ c1 in
        if (s1 <? lo) || (hi <? s1) then (RuneError, 1%nat)
        else if (sz <=? 2)%nat
        then (Z.lor (Z.shiftl (Z.land s0 31) 6) (Z.land s1 63), 2%nat)
        else match t1 with
        | EmptyString => (RuneError, 1%nat)
        | String c2 t2 =>
          let s2 := byteZ c2 in
          if negb (cont_byte s2) then (RuneError, 1%nat)
          else if (sz <=? 3)%nat
          then (Z.lor (Z.lor (Z.shiftl (Z.land s0 15) 12)
                             (Z.shiftl (Z.land s1 63) 6)) (Z.land s2 63), 3%nat)
          else match t2 with
          | EmptyString => (RuneError, 1%nat)
          | String c3 _ =>
            let s3 := byteZ c3 in
            if negb (cont_byte s3) then (RuneError, 1%nat)
            else (Z.lor (Z.lor (Z.lor (Z.shiftl (Z.land s0 7) 18)
                                      (Z.shiftl (Z.land s1 63) 12))
                               (Z.shiftl (Z.land s2 63) 6)) (Z.land s3 63), 4%nat)
          end
        end
      end
    end
  end.

(** A decoded rune with the bytes it was decoded from. *)
Record item := Item { rune : Z; src : string }.

(** The runes of a string, left to right, as [for _, r := range s] and the
    matcher's [step] see them. [skip] counts the bytes still belonging to
    the rune decoded last. *)
Fixpoint runes_skip (skip : nat) (s : string) : list item :=
  match s with
  | EmptyString => []
  | String _ s' =>
    match skip with
    | S k => runes_skip k s'
    | O => let '(r, w) := DecodeRuneInString s in
           Item r (substring 0 w s) :: runes_skip (w - 1) s'
    end
  end.

Definition runes (s : string) : list item := runes_skip 0 s.

(** The bytes of a run of runes. *)
Definition join (l : list item) : string :=
  fold_right (fun it acc => String.append (src it) acc) EmptyString l.

End utf8.

(** ** Package [regexp/syntax]: the patterns *)
Module syntax.
Local Open Scope Z_scope.

Definition ch (c : ascii) : Z := byteZ c.
Definition in_range (lo hi : ascii) (r : Z) : bool := (ch lo <=? r) && (r <=? ch hi).

(** [\d] *)
Definition digit (r : Z) : bool := in_range "0" "9" r.
(** [\s], which is [[\t\n\f\r ]] *)
Definition space (r : Z) : bool :=
  (r =? 9) || (r =? 10) || (r =? 12) || (r =? 13) || (r =? 32).
(** [\w], which is [[0-9A-Za-z_]] *)
Definition word (r : Z) : bool :=
  digit r || in_range "A" "Z" r || in_range "a" "z" r || (r =? ch "_").
(** [.] without the [s] flag *)
Definition any_not_nl (r : Z) : bool := negb (r =? 10).

(** A literal under [(?i)]: the rune is in the simple-folding orbit of the
    ASCII character [c]. The orbit of a letter is its two cases, with
    U+212A (Kelvin sign) added for k and U+017F (long s) added for s. *)
Definition fold_eq (c r : Z) : bool :=
  (r =? c)
  || (in_range "a" "z" c && (r =? c - 32))
  || (in_range "A" "Z" c && (r =? c + 32))
  || (((c =? ch "k") || (c =? ch "K")) && (r =? 8490))
  || (((c =? ch "s") || (c =? ch "S")) && (r =? 383)).

(** The regular expressions the program uses: repetition is only ever
    applied to a single character class. [Alt] prefers its left branch,
    [Many true] is greedy and [Many false] lazy. *)
Inductive regex :=
| Eps
| Cls (p : Z -> bool)
| Cat (r1 r2 : regex)
| Alt (r1 r2 : regex)
| Many (greedy : bool) (p : Z -> bool)
| Cap (i : nat) (r : regex)
| Bol (multiline : bool)
| EndText
| WordBoundary.

(** [p+], [r?], a literal character, a literal string, a sequence *)
Definition Plus (greedy : bool) (p : Z -> bool) : regex := Cat (Cls p) (Many greedy p).
Definition Quest (r : regex) : regex := Alt r Eps.
Definition Lit (fold : bool) (c : ascii) : regex :=
  Cls (if fold then fold_eq (ch c) else Z.eqb (ch c)).
Fixpoint Str (fold : bool) (s : string) : regex :=
  match s with
  | EmptyString => Eps
  | String c EmptyString => Lit fold c
  | String c s' => Cat (Lit fold c) (Str fold s')
  end.
Fixpoint Seq (l : list regex) : regex :=
  match l with
  | [] => Eps
  | [r] => r
  | r :: l' => Cat r (Seq l')
  end.

Fixpoint NumSubexp (r : regex) : nat :=
  match r with
  | Cat r1 r2 | Alt r1 r2 => Nat.max (NumSubexp r1) (NumSubexp r2)
  | Cap i r => Nat.max i (NumSubexp r)
  | _ => 0%nat
  end.

End syntax.

(** ** Package [regexp]: leftmost-first matching with submatches *)
Module regexp.
Import utf8 syntax.
Local Open Scope Z_scope.

(** A position in the input: the runes before it (nearest first) and the
    runes from it on. *)
Record cursor := Cur { before : list item; after : list item }.

(** The runes on both sides of a position, [-1] (endOfText) at the ends. *)
Definition prev_rune (c : cursor) : Z :=
  match before c with it :: _ => rune it | [] => -1 end.
Definition next_rune (c : cursor) : Z :=
  match after c with it :: _ => rune it | [] => -1 end.

(** The groups set so far, latest first; an unset group reads as the
    empty string. *)
Definition caps := list (nat * string).
Definition cap_get (i : nat) (cs : caps) : string :=
  match find (fun e => Nat.eqb (fst e) i) cs with
  | Some e => snd e
  | None => EmptyString
  end.

(** The bytes between two positions [c] and [c'] of one input. *)
Definition consumed (c c' : cursor) : string :=
  join (rev (firstn (List.length (before c') - List.length (before c)) (before c'))).

Definition cont := cursor -> caps -> option (cursor * caps).

(** [p*] and [p*?] followed by [k]. *)
Fixpoint many (greedy : bool) (p : Z -> bool) (k : cont)
    (bef aft : list item) (cs : caps) {struct aft} : option (cursor * caps) :=
  match aft with
  | it :: aft' =>
    if p (rune it) then
      if greedy then
        match many greedy p k (it :: bef) aft' cs with
        | Some res => Some res
        | None => k (Cur bef aft) cs
        end
      else
        match k (Cur bef aft) cs with
        | Some res => Some res
        | None => many greedy p k (it :: bef) aft' cs
        end
    else k (Cur bef aft) cs
  | [] => k (Cur bef aft) cs
  end.

(** The match a backtracking search finds first: [r] at position [c],
    then the rest of the pattern [k]. *)
Fixpoint exec (r : regex) (k : cont) (c : cursor) (cs : caps) : option (cursor * caps) :=
  match r with
  | Eps => k c cs
  | Cls p =>
    match after c with
    | it :: aft' => if p (rune it) then k (Cur (it :: before c) aft') cs else None
    | [] => None
    end
  | Cat r1 r2 => exec r1 (exec r2 k) c cs
  | Alt r1 r2 =>
    match exec r1 k c cs with
    | Some res => Some res
    | None => exec r2 k c cs
    end
  | Many g p => many g p k (before c) (after c) cs
  | Cap i r' => exec r' (fun c' cs' => k c' ((i, consumed c c') :: cs')) c cs
  | Bol ml =>
    if (prev_rune c =? -1) || (ml && (prev_rune c =? 10)) then k c cs else None
  | EndText => if next_rune c =? -1 then k c cs else None
  | WordBoundary =>
    if xorb (word (prev_rune c)) (word (next_rune c)) then k c cs else None
  end.

Definition accept : cont := fun c cs => Some (c, cs).

(** One match: where it starts, where it ends, its groups. *)
Record found := Found { m_start : cursor; m_end : cursor; m_caps : caps }.

(** The slice [FindStringSubmatch] returns: the whole match, then the
    groups 1 to [NumSubexp]. *)
Definition submatches (r : regex) (f : found) : list string :=
  consumed (m_start f) (m_end f)
    :: map (fun i => cap_get i (m_caps f)) (seq 1 (NumSubexp r)).

(** The leftmost match starting at the position or later. *)
Fixpoint search (r : regex) (bef aft : list item) {struct aft} : option found :=
  match exec r accept (Cur bef aft) [] with
  | Some (c', cs) => Some (Found (Cur bef aft) c' cs)
  | None =>
    match aft with
    | [] => None
    | it :: aft' => search r (it :: bef) aft'
    end
  end.

Definition FindStringSubmatch (r : regex) (s : string) : option (list string) :=
  option_map (submatches r) (search r [] (runes s)).

Definition MatchString (r : regex) (s : string) : bool :=
  match search r [] (runes s) with Some _ => true | None => false end.

(** The loop of [allMatches]: successive non-overlapping matches. A
    non-empty match that consumed [n] runes is followed by a search from
    its end ([skip] counts the runes still inside it, [adj] says that the
    position is the end of the previous match); an empty match is dropped
    when it is adjacent to the previous match, and the scan moves on by one
    rune. *)
Fixpoint find_all (r : regex) (skip : nat) (adj : bool)
    (bef aft : list item) {struct aft} : list found :=
  match skip with
  | S n =>
    match aft with
    | [] => []
    | it :: aft' => find_all r n adj (it :: bef) aft'
    end
  | O =>
    match exec r accept (Cur bef aft) [] with
    | None =>
      match aft with
      | [] => []
      | it :: aft' => find_all r 0 false (it :: bef) aft'
      end
    | Some (c', cs) =>
      let f := Found (Cur bef aft) c' cs in
      match (List.length (before c') - List.length bef)%nat with
      | O =>
        (if adj then [] else [f]) ++
        match aft with
        | [] => []
        | it :: aft' => find_all r 0 false (it :: bef) aft'
        end
      | S n =>
        f :: match aft with
             | [] => []
             | it :: aft' => find_all r n true (it :: bef) aft'
             end
      end
    end
  end.

(** [FindAllStringSubmatch(s, -1)] *)
Definition FindAllStringSubmatch (r : regex) (s : string) : list (list string) :=
  map (submatches r) (find_all r 0 false [] (runes s)).

(** Rune offsets of a position, and the bytes of the runes [a..b). *)
Definition pos (c : cursor) : nat := List.length (before c).
Definition slice (items : list item) (a b : nat) : string :=
  join (firstn (b - a) (skipn a items)).

(** The loop of [Regexp.Split(s, -1)] over the matches: [beg] is the end
    of the previous match and [end_] the start of the last match seen. *)
Fixpoint split_loop (items : list item) (beg end_ : nat) (ms : list found) : list string :=
  match ms with
  | [] => if (end_ =? List.length items)%nat then []
          else [slice items beg (List.length items)]
  | f :: ms' =>
    (if (pos (m_end f) =? 0)%nat then [] else [slice items beg (pos (m_start f))])
    ++ split_loop items (pos (m_end f)) (pos (m_start f)) ms'
  end.

(** [Regexp.Split(s, -1)] for a pattern whose source text is not empty. *)
Definition Split (r : regex) (s : string) : list string :=
  if (String.length s =? 0)%nat then [EmptyString]
  else split_loop (runes s) 0 0 (find_all r 0 false [] (runes s)).

End regexp.

(** ** Packages [unicode], [strings] and [sort] *)
Module unicode.
Local Open Scope Z_scope.

(** [unicode.IsSpace]: the Latin-1 spaces and the [White_Space] property. *)
Definition IsSpace (r : Z) : bool :=
  (r =? 9) || (r =? 10) || (r =? 11) || (r =? 12) || (r =? 13) || (r =? 32)
  || (r =? 133) || (r =? 160)
  || (r =? 5760) || ((8192 <=? r) && (r <=? 8202))
  || (r =? 8232) || (r =? 8233) || (r =? 8239) || (r =? 8287) || (r =? 12288).

End unicode.

Module strings.
Import utf8.

(** [strings.Split(s, sep)] for a separator [sep] of one byte: the pieces
    between the separators, one more than there are separators. *)
Fixpoint Split (s : string) (sep : ascii) : list string :=
  match s with
  | EmptyString => [EmptyString]
  | String c s' =>
    if Ascii.eqb c sep then EmptyString :: Split s' sep
    else match Split s' sep with
         | l :: ls => String c l :: ls
         | [] => [String c EmptyString]
         end
  end.

(** [strings.ReplaceAll(s, old, new)] for [old] of one byte. *)
Fixpoint ReplaceAll (s : string) (old : ascii) (new : string) : string :=
  match s with
  | EmptyString => EmptyString
  | String c s' =>
    if Ascii.eqb c old then String.append new (ReplaceAll s' old new)
    else String c (ReplaceAll s' old new)
  end.

Fixpoint drop_spaces (l : list item) : list item :=
  match l with
  | it :: l' => if unicode.IsSpace (rune it) then drop_spaces l' else l
  | [] => []
  end.

(** [strings.Join(elems, sep)] *)
Fixpoint Join (elems : list string) (sep : string) : string :=
  match elems with
  | [] => EmptyString
  | [x] => x
  | x :: elems' => String.append x (String.append sep (Join elems' sep))
  end.

(** [strings.TrimSpace]: the string without its leading and trailing
    white-space runes. (The trailing runes are found here in the forward
    decoding; Go decodes backwards from the end, which finds the same
    white-space runes, a byte that is not a continuation byte always
    starting a rune.) *)
Definition TrimSpace (s : string) : string :=
  join (rev (drop_spaces (rev (drop_spaces (runes s))))).

End strings.

Module sort.

(** Go compares strings byte by byte. *)
Definition string_le (s1 s2 : string) : Prop := String.leb s1 s2 = true.

#[global] Instance string_le_dec : RelDecision string_le.
Proof. intros s1 s2. unfold string_le. apply _. Defined.

(** [sort.Strings]: the list in increasing order. *)
Definition Strings (l : list string) : list string := merge_sort string_le l.

End sort.

(** ** [main.go]
    The byte ["010"] is the line feed. *)
Import utf8 syntax regexp.

(** [[A-Za-z0-9._:-]], and the same class under [(?i)], to which folding
    adds U+017F and U+212A. *)
Definition name_cls (r : Z) : bool :=
  in_range "A" "Z" r || in_range "a" "z" r || in_range "0" "9" r
  || (r =? ch ".")%Z || (r =? ch "_")%Z || (r =? ch ":")%Z || (r =? ch "-")%Z.
Definition name_cls_fold (r : Z) : bool :=
  name_cls r || (r =? 383)%Z || (r =? 8490)%Z.
(** [[^']], [[\d,]], [[0-9A-Fa-fx]], [[,\s]] *)
Definition not_quote (r : Z) : bool := negb (r =? ch "'")%Z.
Definition digit_comma (r : Z) : bool := digit r || (r =? ch ",")%Z.
Definition hex_x (r : Z) : bool :=
  in_range "0" "9" r || in_range "A" "F" r || in_range "a" "f" r || (r =? ch "x")%Z.
Definition comma_space (r : Z) : bool := (r =? ch ",")%Z || space r.

(** *** [parseChildrenFromListConns] *)
Module ListConns.
(** [(?m)^\s+([A-Za-z0-9._:-]+):\s+TUNNEL\b] *)
Definition reChildTunnel : regex :=
  Seq [Bol true; Plus true space; Cap 1 (Plus true name_cls); Lit false ":";
       Plus true space; Str false "TUNNEL"; WordBoundary].
(** [(?i)\bchildren:\s*(.+)$] *)
Definition reChildren : regex :=
  Seq [WordBoundary; Str true "children:"; Many true space;
       Cap 1 (Plus true any_not_nl); EndText].
(** [[,\s]+] *)
Definition reSep : regex := Plus true comma_space.
(** [(?i)^\s*child\s+([A-Za-z0-9._:-]+)\b] *)
Definition reChildLine : regex :=
  Seq [Bol false; Many true space; Str true "child"; Plus true space;
       Cap 1 (Plus true name_cls_fold); WordBoundary].
End ListConns.

(** The element [m[i]] of a submatch slice. *)
Definition sub (m : list string) (i : nat) : string := nth i m EmptyString.

(** [re.FindStringSubmatch(line)[i]], which the source evaluates only
    after [re.MatchString(line)] held. *)
Definition submatch (re : regex) (line : string) (i : nat) : string :=
  match FindStringSubmatch re line with
  | Some m => sub m i
  | None => EmptyString
  end.

Definition parseChildrenFromListConns (text : string) : list string :=
  let names :=
    flat_map (fun m => if (1 <? List.length m)%nat then [sub m 1] else [])
             (FindAllStringSubmatch ListConns.reChildTunnel text) in
  let names := names ++
    flat_map (fun line =>
      match FindStringSubmatch ListConns.reChildren line with
      | Some m =>
        flat_map (fun tok =>
                    let tok := strings.TrimSpace tok in
                    if String.eqb tok "" then [] else [tok])
                 (regexp.Split ListConns.reSep (sub m 1))
      | None => []
      end) (strings.Split text "010") in
  let names := names ++
    flat_map (fun line =>
      match FindStringSubmatch ListConns.reChildLine line with
      | Some m => [sub m 1]
      | None => []
      end) (strings.Split text "010") in
  names.

(** *** [parseChildrenFromListSas] *)
Module ListSas.
(** [(?m)^\s*(?:child\s+)?([A-Za-z0-9._:-]+)\{\d+\}:?] *)
Definition reBrace : regex :=
  Seq [Bol true; Many true space; Quest (Cat (Str false "child") (Plus true space));
       Cap 1 (Plus true name_cls); Lit false "{"; Plus true digit; Lit false "}";
       Quest (Lit false ":")].
(** [(?m)^\s*CHILD_SA\s+([A-Za-z0-9._:-]+)\{\d+\}\b] *)
Definition reChildSa : regex :=
  Seq [Bol true; Many true space; Str false "CHILD_SA"; Plus true space;
       Cap 1 (Plus true name_cls); Lit false "{"; Plus true digit; Lit false "}";
       WordBoundary].
(** [(?m)^\s*child\s+'([^']+)'] *)
Definition reQuoted : regex :=
  Seq [Bol true; Many true space; Str false "child"; Plus true space;
       Lit false "'"; Cap 1 (Plus true not_quote); Lit false "'"].
End ListSas.

Definition parseChildrenFromListSas (text : string) : list string :=
  let collect re :=
    flat_map (fun m => if (1 <? List.length m)%nat then [sub m 1] else [])
             (FindAllStringSubmatch re text) in
  collect ListSas.reBrace ++ collect ListSas.reChildSa ++ collect ListSas.reQuoted.

(** *** [childrenJSONHandler]
    The list the handler encodes, as a function of the outputs
    [connsOut] of [swanctl --list-conns] and [sasOut] of
    [swanctl --list-sas] (the second is only read when the first gives no
    name). *)
Definition childrenJSONHandler (connsOut sasOut : string) : list string :=
  let names := parseChildrenFromListConns connsOut in
  let names :=
    if (List.length names =? 0)%nat then parseChildrenFromListSas sasOut else names in
  let uniq : gset string :=
    fold_left (fun uniq n =>
                 let n := strings.TrimSpace n in
                 if negb (String.eqb n "") then {[ n ]} ∪ uniq else uniq)
              names ∅ in
  sort.Strings (elements uniq).

(** *** [parseActiveChildrenFromListSas] *)
Module ActiveSas.
(** [(?i)^\s*(?:child\s+)?([A-Za-z0-9._:-]+)\{\d+\}:] *)
Definition reBrace : regex :=
  Seq [Bol false; Many true space; Quest (Cat (Str true "child") (Plus true space));
       Cap 1 (Plus true name_cls_fold); Lit true "{"; Plus true digit; Lit true "}";
       Lit true ":"].
(** [(?i)^\s*CHILD_SA\s+([A-Za-z0-9._:-]+)\{\d+\}\b] *)
Definition reChildSa : regex :=
  Seq [Bol false; Many true space; Str true "CHILD_SA"; Plus true space;
       Cap 1 (Plus true name_cls_fold); Lit true "{"; Plus true digit; Lit true "}";
       WordBoundary].
(** [(?i)^\s*child\s+'([^']+)'] *)
Definition reQuoted : regex :=
  Seq [Bol false; Many true space; Str true "child"; Plus true space;
       Lit true "'"; Cap 1 (Plus true not_quote); Lit true "'"].
(** [(?i)^\s*(?:child\s+)?([A-Za-z0-9._:-]+):\s+INSTALLED\b] *)
Definition reInstalled : regex :=
  Seq [Bol false; Many true space; Quest (Cat (Str true "child") (Plus true space));
       Cap 1 (Plus true name_cls_fold); Lit true ":"; Plus true space;
       Str true "INSTALLED"; WordBoundary].
(** [(?i)\binstalled\s+CHILD_SA\s+'([^']+)'] *)
Definition reInstalledLog : regex :=
  Seq [WordBoundary; Str true "installed"; Plus true space; Str true "CHILD_SA";
       Plus true space; Lit true "'"; Cap 1 (Plus true not_quote); Lit true "'"].
(** [(?i)^\s*(?:child\s+)?([A-Za-z0-9._:-]+):\s*(?:TUNNEL|ESP|ROUTED|ESTABLISHED)\b] *)
Definition reTolerantHeader : regex :=
  Seq [Bol false; Many true space; Quest (Cat (Str true "child") (Plus true space));
       Cap 1 (Plus true name_cls_fold); Lit true ":"; Many true space;
       Alt (Str true "TUNNEL") (Alt (Str true "ESP")
         (Alt (Str true "ROUTED") (Str true "ESTABLISHED")));
       WordBoundary].
(** [(?i)^\s*([A-Za-z0-9._:-]+):\s*#\d+,\s.*\bESP:] *)
Definition reChildHashESP : regex :=
  Seq [Bol false; Many true space; Cap 1 (Plus true name_cls_fold); Lit true ":";
       Many true space; Lit true "#"; Plus true digit; Lit true ","; Cls space;
       Many true any_not_nl; WordBoundary; Str true "ESP:"].
End ActiveSas.

(** The body of the loop: the [switch] takes the first case whose pattern
    matches the line and inserts that pattern's group 1 into the set. *)
Definition active_line (names : gset string) (line : string) : gset string :=
  if MatchString ActiveSas.reBrace line then
    {[ submatch ActiveSas.reBrace line 1 ]} ∪ names
  else if MatchString ActiveSas.reChildSa line then
    {[ submatch ActiveSas.reChildSa line 1 ]} ∪ names
  else if MatchString ActiveSas.reQuoted line then
    {[ submatch ActiveSas.reQuoted line 1 ]} ∪ names
  else if MatchString ActiveSas.reInstalled line then
    {[ submatch ActiveSas.reInstalled line 1 ]} ∪ names
  else if MatchString ActiveSas.reInstalledLog line then
    {[ submatch ActiveSas.reInstalledLog line 1 ]} ∪ names
  else if MatchString ActiveSas.reChildHashESP line then
    {[ submatch ActiveSas.reChildHashESP line 1 ]} ∪ names
  else if MatchString ActiveSas.reTolerantHeader line then
    {[ submatch ActiveSas.reTolerantHeader line 1 ]} ∪ names
  else names.

Definition parseActiveChildrenFromListSas (text : string) : list string :=
  let lines := strings.Split text "010" in
  let names : gset string := fold_left active_line lines ∅ in
  sort.Strings (elements names).

(** *** [ChildStats], [stripCommas], [parseInt64] *)
Record ChildStats := mkChildStats {
  Active : bool;
  InBytes : Z;
  OutBytes : Z;
  InPkts : Z;
  OutPkts : Z
}.

(** The zero value, which [stats[current]] reads for a missing key. *)
Definition zeroStats : ChildStats := mkChildStats false 0 0 0 0.

Definition stripCommas (s : string) : string := strings.ReplaceAll s "," "".

(** [int64] arithmetic wraps around. *)
Definition wrap64 (z : Z) : Z := ((z + 2 ^ 63) mod 2 ^ 64 - 2 ^ 63)%Z.

(** The loop of [parseInt64], from the value [n] reached so far. *)
Fixpoint parseInt64_loop (n : Z) (s : string) : Z :=
  match s with
  | EmptyString => n
  | String c s' =>
    if (byteZ c <? byteZ "0")%Z || (byteZ "9" <? byteZ c)%Z then n
    else parseInt64_loop (wrap64 (wrap64 (n * 10) + (byteZ c - byteZ "0"))) s'
  end.

Definition parseInt64 (s : string) : Z := parseInt64_loop 0 s.

(** *** [parseStatusToStats] *)
Module Status.
(** [^\s*(?:child\s+)?([A-Za-z0-9._:-]+)\{\d+\}:?] *)
Definition reHeaderBrace : regex :=
  Seq [Bol false; Many true space; Quest (Cat (Str false "child") (Plus true space));
       Cap 1 (Plus true name_cls); Lit false "{"; Plus true digit; Lit false "}";
       Quest (Lit false ":")].
(** [^\s*CHILD_SA\s+([A-Za-z0-9._:-]+)\{\d+\}\b] *)
Definition reHeaderChildSA : regex :=
  Seq [Bol false; Many true space; Str false "CHILD_SA"; Plus true space;
       Cap 1 (Plus true name_cls); Lit false "{"; Plus true digit; Lit false "}";
       WordBoundary].
(** [^\s*child\s+'([^']+)'] *)
Definition reHeaderQuoted : regex :=
  Seq [Bol false; Many true space; Str false "child"; Plus true space;
       Lit false "'"; Cap 1 (Plus true not_quote); Lit false "'"].
(** [^\s*([A-Za-z0-9._:-]+):\s*#\d+,\s.*\bESP:] *)
Definition reHeaderHashESP : regex :=
  Seq [Bol false; Many true space; Cap 1 (Plus true name_cls); Lit false ":";
       Many true space; Lit false "#"; Plus true digit; Lit false ","; Cls space;
       Many true any_not_nl; WordBoundary; Str false "ESP:"].

(** [^\s*DIR:\s*([\d,]+)\s*bytes,\s*([\d,]+)\s*packets] *)
Definition rePrimary (dir : string) : regex :=
  Seq [Bol false; Many true space; Str false dir; Lit false ":"; Many true space;
       Cap 1 (Plus true digit_comma); Many true space; Str false "bytes,";
       Many true space; Cap 2 (Plus true digit_comma); Many true space;
       Str false "packets"].
(** [^\s*DIR:.*?\bbytes\s+([\d,]+).*?\bpackets\s+([\d,]+)] *)
Definition reAlt (dir : string) : regex :=
  Seq [Bol false; Many true space; Str false dir; Lit false ":";
       Many false any_not_nl; WordBoundary; Str false "bytes"; Plus true space;
       Cap 1 (Plus true digit_comma); Many false any_not_nl; WordBoundary;
       Str false "packets"; Plus true space; Cap 2 (Plus true digit_comma)].
(** [^\s*DIR\s+[0-9A-Fa-fx]+,\s*([\d,]+)\s*bytes,\s*([\d,]+)\s*packets] *)
Definition reSPI (dir : string) : regex :=
  Seq [Bol false; Many true space; Str false dir; Plus true space; Plus true hex_x;
       Lit false ","; Many true space; Cap 1 (Plus true digit_comma);
       Many true space; Str false "bytes,"; Many true space;
       Cap 2 (Plus true digit_comma); Many true space; Str false "packets"].
(** [^\s*DIR\b.*?\bbytes\s+([\d,]+).*?\bpackets\s+([\d,]+)] *)
Definition reNoColon (dir : string) : regex :=
  Seq [Bol false; Many true space; Str false dir; WordBoundary;
       Many false any_not_nl; WordBoundary; Str false "bytes"; Plus true space;
       Cap 1 (Plus true digit_comma); Many false any_not_nl; WordBoundary;
       Str false "packets"; Plus true space; Cap 2 (Plus true digit_comma)].

Definition reInPrimary := rePrimary "in".
Definition reOutPrimary := rePrimary "out".
Definition reInAlt := reAlt "in".
Definition reOutAlt := reAlt "out".
Definition reInSPI := reSPI "in".
Definition reOutSPI := reSPI "out".
Definition reInNoColon := reNoColon "in".
Definition reOutNoColon := reNoColon "out".
End Status.

(** [stats[current]] *)
Definition stats_get (stats : gmap string ChildStats) (current : string) : ChildStats :=
  default zeroStats (stats !! current).

(** [st := stats[current]; st.Active = true; stats[current] = st] *)
Definition set_active (stats : gmap string ChildStats) (current : string)
    : gmap string ChildStats :=
  let st := stats_get stats current in
  <[ current := mkChildStats true (InBytes st) (OutBytes st) (InPkts st) (OutPkts st) ]> stats.

(** [m := re.FindStringSubmatch(line); st := stats[current];
     st.InBytes = parseInt64(stripCommas(m[1]));
     st.InPkts = parseInt64(stripCommas(m[2])); stats[current] = st] *)
Definition set_in (re : regex) (line : string)
    (stats : gmap string ChildStats) (current : string) : gmap string ChildStats :=
  let st := stats_get stats current in
  <[ current := mkChildStats (Active st)
                  (parseInt64 (stripCommas (submatch re line 1))) (OutBytes st)
                  (parseInt64 (stripCommas (submatch re line 2))) (OutPkts st) ]> stats.

(** The same for [st.OutBytes] and [st.OutPkts]. *)
Definition set_out (re : regex) (line : string)
    (stats : gmap string ChildStats) (current : string) : gmap string ChildStats :=
  let st := stats_get stats current in
  <[ current := mkChildStats (Active st)
                  (InBytes st) (parseInt64 (stripCommas (submatch re line 1)))
                  (InPkts st) (parseInt64 (stripCommas (submatch re line 2))) ]> stats.

(** One iteration of the loop over the lines, on the map [stats] and the
    variable [current]. *)
Definition status_line (st : gmap string ChildStats * string) (line : string)
    : gmap string ChildStats * string :=
  let '(stats, current) := st in
  if MatchString Status.reHeaderHashESP line then
    let current := submatch Status.reHeaderHashESP line 1 in
    (set_active stats current, current)
  else if MatchString Status.reHeaderBrace line then
    let current := submatch Status.reHeaderBrace line 1 in
    (set_active stats current, current)
  else if MatchString Status.reHeaderChildSA line then
    let current := submatch Status.reHeaderChildSA line 1 in
    (set_active stats current, current)
  else if MatchString Status.reHeaderQuoted line then
    let current := submatch Status.reHeaderQuoted line 1 in
    (set_active stats current, current)
  else if String.eqb current "" then (stats, current)
  else if MatchString Status.reInSPI line then
    (set_in Status.reInSPI line stats current, current)
  else if MatchString Status.reOutSPI line then
    (set_out Status.reOutSPI line stats current, current)
  else if MatchString Status.reInPrimary line then
    (set_in Status.reInPrimary line stats current, current)
  else if MatchString Status.reOutPrimary line then
    (set_out Status.reOutPrimary line stats current, current)
  else if MatchString Status.reInAlt line then
    (set_in Status.reInAlt line stats current, current)
  else if MatchString Status.reOutAlt line then
    (set_out Status.reOutAlt line stats current, current)
  else if MatchString Status.reInNoColon line then
    (set_in Status.reInNoColon line stats current, current)
  else if MatchString Status.reOutNoColon line then
    (set_out Status.reOutNoColon line stats current, current)
  else (stats, current).

Definition parseStatusToStats (text : string) : gmap string ChildStats :=
  let lines := strings.Split text "010" in
  fst (fold_left status_line lines (∅, EmptyString)).

(** *** [debugActiveLinesHandler]
    The patterns of [reList] are those of [parseActiveChildrenFromListSas],
    the hash-ESP pattern coming first. *)
Definition debug_reList : list regex :=
  [ActiveSas.reChildHashESP; ActiveSas.reBrace; ActiveSas.reChildSa; ActiveSas.reQuoted;
   ActiveSas.reInstalled; ActiveSas.reInstalledLog; ActiveSas.reTolerantHeader].

(** The inner loop: it stops at the first pattern that matches the line. *)
Fixpoint matches_any (reList : list regex) (line : string) : bool :=
  match reList with
  | [] => false
  | re :: reList' => if MatchString re line then true else matches_any reList' line
  end.

Definition no_match_message : string :=
  "No lines matched active-child patterns." +:+ String "010" (String "010"
  ("Full output:" +:+ String "010" "")).

(** The body the handler writes, as a function of the output [out] of
    [swanctl --list-sas]. *)
Definition debugActiveLinesHandler (out : string) : string :=
  let text := out in
  let matched :=
    fold_left (fun matched line =>
                 if matches_any debug_reList line then matched ++ [line] else matched)
              (strings.Split text "010") [] in
  if (List.length matched =? 0)%nat then no_match_message +:+ text
  else strings.Join matched (String "010" "").

(** * Properties *)

(** ** The two line classifiers

    What the [switch] of each loop selects for one line: the group 1 of
    the first pattern, in the order of the cases, that matches it. *)

Definition active_patterns : list regex :=
  [ActiveSas.reBrace; ActiveSas.reChildSa; ActiveSas.reQuoted; ActiveSas.reInstalled;
   ActiveSas.reInstalledLog; ActiveSas.reChildHashESP; ActiveSas.reTolerantHeader].

Definition header_patterns : list regex :=
  [Status.reHeaderHashESP; Status.reHeaderBrace; Status.reHeaderChildSA;
   Status.reHeaderQuoted].

Definition counter_patterns : list regex :=
  [Status.reInSPI; Status.reOutSPI; Status.reInPrimary; Status.reOutPrimary;
   Status.reInAlt; Status.reOutAlt; Status.reInNoColon; Status.reOutNoColon].

Fixpoint first_match (res : list regex) (line : string) : option string :=
  match res with
  | [] => None
  | re :: res' =>
    if MatchString re line then Some (submatch re line 1) else first_match res' line
  end.

Definition active_capture : string -> option string := first_match active_patterns.
Definition header_capture : string -> option string := first_match header_patterns.
Definition counter_line (line : string) : bool :=
  existsb (fun re => MatchString re line) counter_patterns.

(** The state of the status loop after the lines [ls]. *)
Definition status_run (ls : list string) : gmap string ChildStats * string :=
  fold_left status_line ls (∅, EmptyString).

(** The cases of the counter [switch], in order, each with its direction
    ([true] for inbound). *)
Definition counter_cases : list (bool * regex) :=
  [(true, Status.reInSPI); (false, Status.reOutSPI);
   (true, Status.reInPrimary); (false, Status.reOutPrimary);
   (true, Status.reInAlt); (false, Status.reOutAlt);
   (true, Status.reInNoColon); (false, Status.reOutNoColon)].

Fixpoint first_case (cases : list (bool * regex)) (line : string) : option (bool * regex) :=
  match cases with
  | [] => None
  | (dir, re) :: cases' =>
    if MatchString re line then Some (dir, re) else first_case cases' line
  end.

(** The counter case a line selects. *)
Definition counter_case : string -> option (bool * regex) := first_case counter_cases.

(** ** Definitions for the statements *)

(** The Kelvin sign U+212A, as its three bytes. *)
Definition kelvin : string := String "226" (String "132" (String "170" "")).

(** Scenario A of the specification. *)
Definition scenarioA : string :=
  "tun1: #3, reqid 1, INSTALLED, TUNNEL, ESP:AES_CBC" +:+ String "010"
  ("in  0xc1234567,  1000 bytes,   10 packets" +:+ String "010"
   "out 0xc7654321,  2000 bytes,   20 packets").

(** The longest prefix of decimal digits, and the number a string of
    digits denotes (continuing from [acc]). *)
Definition is_digit (c : ascii) : bool :=
  negb ((byteZ c <? byteZ "0")%Z || (byteZ "9" <? byteZ c)%Z).
Fixpoint digit_prefix (s : string) : string :=
  match s with
  | EmptyString => EmptyString
  | String c s' => if is_digit c then String c (digit_prefix s') else EmptyString
  end.
Fixpoint decimal_from (acc : Z) (s : string) : Z :=
  match s with
  | EmptyString => acc
  | String c s' => decimal_from (acc * 10 + (byteZ c - byteZ "0")) s'
  end.
Definition decimal (s : string) : Z := decimal_from 0 s.

(** The patterns of [parseChildrenFromListSas]. *)
Definition fallback_patterns : list regex :=
  [ListSas.reBrace; ListSas.reChildSa; ListSas.reQuoted].

(** The invariant of the loop: a non-empty [current] has a record, every
    record is active, and the keys are the names captured by the header
    lines read so far. *)
Definition status_inv (ls : list string) (st : gmap string ChildStats * string) : Prop :=
  (snd st <> EmptyString -> is_Some (fst st !! snd st)) /\
  (forall k r, fst st !! k = Some r -> Active r = true) /\
  (forall n, is_Some (fst st !! n) <->
             exists line, line ∈ ls /\ header_capture line = Some n).

(** [matches r c cs c' cs']: the pattern [r] can match from the position
    [c] to the position [c'], turning the groups [cs] into [cs']. *)
Inductive matches : regex -> cursor -> caps -> cursor -> caps -> Prop :=
| matches_Eps c cs : matches Eps c cs c cs
| matches_Cls p it bef aft cs :
    p (rune it) = true ->
    matches (Cls p) (Cur bef (it :: aft)) cs (Cur (it :: bef) aft) cs
| matches_Cat r1 r2 c cs c1 cs1 c2 cs2 :
    matches r1 c cs c1 cs1 -> matches r2 c1 cs1 c2 cs2 ->
    matches (Cat r1 r2) c cs c2 cs2
| matches_Alt_l r1 r2 c cs c' cs' :
    matches r1 c cs c' cs' -> matches (Alt r1 r2) c cs c' cs'
| matches_Alt_r r1 r2 c cs c' cs' :
    matches r2 c cs c' cs' -> matches (Alt r1 r2) c cs c' cs'
| matches_Many g p its bef aft cs :
    Forall (fun it => p (rune it) = true) its ->
    matches (Many g p) (Cur bef (its ++ aft)) cs (Cur (rev its ++ bef) aft) cs
| matches_Cap i r c cs c' cs' :
    matches r c cs c' cs' ->
    matches (Cap i r) c cs c' ((i, consumed c c') :: cs')
| matches_Bol ml c cs :
    (prev_rune c = -1 \/ ml = true /\ prev_rune c = 10)%Z ->
    matches (Bol ml) c cs c cs
| matches_EndText c cs : next_rune c = (-1)%Z -> matches EndText c cs c cs
| matches_WordBoundary c cs :
    word (prev_rune c) <> word (next_rune c) -> matches WordBoundary c cs c cs.

(** A pattern without groups. *)
Fixpoint no_cap (r : regex) : bool :=
  match r with
  | Cat r1 r2 | Alt r1 r2 => no_cap r1 && no_cap r2
  | Cap _ _ => false
  | _ => true
  end.

(** [sets1 p r]: the pattern [r] is a sequence in which group 1 occurs
    once, as [(p+)], and no other group occurs. *)
Inductive sets1 (p : Z -> bool) : regex -> Prop :=
| sets1_here g : sets1 p (Cap 1 (Plus g p))
| sets1_first r1 r2 : sets1 p r1 -> no_cap r2 = true -> sets1 p (Cat r1 r2)
| sets1_later r1 r2 : no_cap r1 = true -> sets1 p r2 -> sets1 p (Cat r1 r2).

(** A pattern in which the group [i] does not occur. *)
Fixpoint no_group (i : nat) (r : regex) : bool :=
  match r with
  | Cat r1 r2 | Alt r1 r2 => no_group i r1 && no_group i r2
  | Cap j r' => negb (Nat.eqb j i) && no_group i r'
  | _ => true
  end.

(** [sets_group i p r]: the pattern [r] is a sequence in which the group
    [i] occurs once, as [(p+)]; other groups may occur around it. *)
Inductive sets_group (i : nat) (p : Z -> bool) : regex -> Prop :=
| sets_group_here g : sets_group i p (Cap i (Plus g p))
| sets_group_first r1 r2 :
    sets_group i p r1 -> no_group i r2 = true -> sets_group i p (Cat r1 r2)
| sets_group_later r1 r2 :
    no_group i r1 = true -> sets_group i p r2 -> sets_group i p (Cat r1 r2).

(** The runs of runes a pattern can consume, whatever stands around
    them: the assertions consume nothing. *)
Fixpoint shape (r : regex) (its : list item) : Prop :=
  match r with
  | Eps | Bol _ | EndText | WordBoundary => its = []
  | Cls p => exists it, its = [it] /\ p (rune it) = true
  | Cat r1 r2 => exists its1 its2, its = its1 ++ its2 /\ shape r1 its1 /\ shape r2 its2
  | Alt r1 r2 => shape r1 its \/ shape r2 its
  | Many _ p => Forall (fun it => p (rune it) = true) its
  | Cap _ r' => shape r' its
  end.

(** The longest run of runes of a class at the head of a list, and what
    follows it. *)
Fixpoint run_of (p : Z -> bool) (l : list item) : list item :=
  match l with
  | it :: l' => if p (rune it) then it :: run_of p l' else []
  | [] => []
  end.
Fixpoint after_run (p : Z -> bool) (l : list item) : list item :=
  match l with
  | it :: l' => if p (rune it) then after_run p l' else l
  | [] => []
  end.

(** The first rune of a list, if any. *)
Definition head_rune (l : list item) : option Z :=
  match l with it :: _ => Some (rune it) | [] => None end.

(** What tells the header patterns apart on a line: the run of name
    characters after the leading white space, the rune after that run, and
    the first rune after the white space that follows the run. *)
Definition header_sig (l : list item) : list Z * option Z * option Z :=
  let r := after_run space l in
  let t := after_run name_cls r in
  (map rune (run_of name_cls r), head_rune t, head_rune (after_run space t)).

(** The whole input around a position. *)
Definition input (c : cursor) : list item := rev (before c) ++ after c.

(** The string without its first [k] bytes. *)
Fixpoint sdrop (k : nat) (s : string) : string :=
  match k, s with
  | S k', String _ s' => sdrop k' s'
  | _, _ => s
  end.

(** [n] matches [p+] as a whole: it is not empty and all its runes are
    in the class [p]. *)
Definition matches_class (p : Z -> bool) (n : string) : Prop :=
  n <> "" /\ Forall (fun it => p (rune it) = true) (runes n).


(** ** The classifiers and the loops *)
Section classifiers.

Lemma first_match_Some res line n :
  first_match res line = Some n <->
  exists i re, res !! i = Some re /\ MatchString re line = true /\
    (forall j re', (j < i)%nat -> res !! j = Some re' -> MatchString re' line = false) /\
    n = submatch re line 1.
Proof.
  induction res as [|re0 res IH]; simpl.
  - split; [discriminate|]. intros (i & re & Hi & _). by destruct i.
  - destruct (MatchString re0 line) eqn:E0.
    + split.
      * intros [= <-]. exists 0%nat, re0. repeat split; auto. intros j re' Hj. lia.
      * intros (i & re & Hi & Hm & Hmin & ->). destruct i as [|i].
        -- by injection Hi as <-.
        -- specialize (Hmin 0%nat re0 ltac:(lia) eq_refl). congruence.
    + rewrite IH. split.
      * intros (i & re & Hi & Hm & Hmin & ->). exists (S i), re. repeat split; auto.
        intros [|j] re' Hj Hre'; simpl in Hre'.
        -- by injection Hre' as <-.
        -- apply (Hmin j); [lia|done].
      * intros (i & re & Hi & Hm & Hmin & ->). destruct i as [|i]; simpl in Hi.
        -- injection Hi as <-. congruence.
        -- exists i, re. repeat split; auto.
           intros j re' Hj Hre'. apply (Hmin (S j)); [lia|done].
Qed.

Lemma first_match_None res line :
  first_match res line = None <-> Forall (fun re => MatchString re line = false) res.
Proof.
  induction res as [|re0 res IH]; simpl.
  - split; auto.
  - destruct (MatchString re0 line) eqn:E0.
    + split; [discriminate|]. intros H. inversion H; congruence.
    + rewrite IH. split; [by constructor|]. intros H. by inversion H.
Qed.

Lemma active_line_capture names line :
  active_line names line =
  match active_capture line with
  | Some n => {[ n ]} ∪ names
  | None => names
  end.
Proof.
  unfold active_line, active_capture, active_patterns, first_match.
  repeat match goal with
  | |- context [MatchString ?re line] => destruct (MatchString re line); [reflexivity|]
  end.
  reflexivity.
Qed.

Lemma status_line_header stats current line n :
  header_capture line = Some n ->
  status_line (stats, current) line = (set_active stats n, n).
Proof.
  unfold status_line, header_capture, header_patterns, first_match.
  repeat match goal with
  | |- context [MatchString ?re line] =>
      destruct (MatchString re line); [by intros [= <-]|]
  end.
  discriminate.
Qed.

(** A line that is no header leaves [current] alone, and the map too
    unless [current] is set and the line is a counter line, in which case
    the record of [current] is written. *)
Lemma status_line_other stats current line :
  header_capture line = None ->
  exists stats', status_line (stats, current) line = (stats', current) /\
    (stats' = stats \/
     current <> EmptyString /\ counter_line line = true /\
     exists re, stats' = set_in re line stats current \/
                stats' = set_out re line stats current).
Proof.
  intros H. apply first_match_None in H.
  unfold header_patterns in H.
  repeat match goal with
  | H : Forall _ (_ :: _) |- _ => apply Forall_cons in H as [? H]
  end.
  unfold status_line.
  repeat match goal with
  | H : MatchString ?re line = false |- _ => rewrite H; clear H
  end.
  destruct (String.eqb current "") eqn:Ecur.
  { eexists; split; [reflexivity|by left]. }
  apply String.eqb_neq in Ecur.
  unfold counter_line, counter_patterns, existsb.
  repeat match goal with
  | |- context [if MatchString ?re line then _ else _] =>
      destruct (MatchString re line) eqn:?;
      [eexists; split; [reflexivity|right; split; [done|split; [by rewrite ?orb_true_r|]]];
       eexists; (by left) || (by right) |]
  end.
  eexists; split; [reflexivity|by left].
Qed.

Lemma status_line_ignored stats current line :
  header_capture line = None -> counter_line line = false ->
  status_line (stats, current) line = (stats, current).
Proof.
  intros Hh Hc. destruct (status_line_other stats current line Hh)
    as (stats' & -> & [->|(_ & Hc' & _)]); [done|congruence].
Qed.

End classifiers.

(** ** Sorting *)
Section sorting.

Lemma compare_trans_gen s1 : forall s2 s3 c,
  String.compare s1 s2 = c -> String.compare s2 s3 = c -> String.compare s1 s3 = c.
Proof.
  induction s1 as [|a1 s1 IH]; intros [|a2 s2] [|a3 s3] c; simpl; try congruence.
  unfold Ascii.compare.
  destruct (N.compare_spec (N_of_ascii a1) (N_of_ascii a2));
  destruct (N.compare_spec (N_of_ascii a2) (N_of_ascii a3));
  destruct (N.compare_spec (N_of_ascii a1) (N_of_ascii a3));
  try lia; try congruence; apply IH.
Qed.

Lemma compare_Eq_eq s1 s2 : String.compare s1 s2 = Eq <-> s1 = s2.
Proof.
  split; [apply String.compare_eq_iff|]. intros ->.
  induction s2 as [|a s IH]; simpl; [done|].
  unfold Ascii.compare. by rewrite N.compare_refl.
Qed.

#[local] Instance string_le_total : Total sort.string_le.
Proof. intros s1 s2. apply String.leb_total. Qed.

#[local] Instance string_le_trans : Transitive sort.string_le.
Proof.
  intros s1 s2 s3. unfold sort.string_le, String.leb.
  destruct (String.compare s1 s2) eqn:E12; [| |discriminate].
  - apply compare_Eq_eq in E12 as ->. auto.
  - intros _. destruct (String.compare s2 s3) eqn:E23; [| |discriminate].
    + apply compare_Eq_eq in E23 as <-. by rewrite E12.
    + intros _. by rewrite (compare_trans_gen _ _ _ _ E12 E23).
Qed.

Lemma string_le_antisym s1 s2 : sort.string_le s1 s2 -> sort.string_le s2 s1 -> s1 = s2.
Proof. apply String.leb_antisym. Qed.

Lemma elem_of_sort_Strings l n : n ∈ sort.Strings l <-> n ∈ l.
Proof. unfold sort.Strings. by rewrite merge_sort_Permutation. Qed.

Lemma sort_Strings_sorted l : StronglySorted sort.string_le (sort.Strings l).
Proof. apply StronglySorted_merge_sort; apply _. Qed.

Lemma sort_Strings_NoDup l : NoDup l -> NoDup (sort.Strings l).
Proof. intros H. unfold sort.Strings. by rewrite merge_sort_Permutation. Qed.

End sorting.

(** ** The loop of the Active Connection Extractor *)
Section active_loop.

Lemma active_fold lines : forall (names : gset string) n,
  n ∈ fold_left active_line lines names <->
  n ∈ names \/ exists line, line ∈ lines /\ active_capture line = Some n.
Proof.
  induction lines as [|l lines IH]; intros names n; simpl.
  - split; [auto|]. intros [H|(line & Hl & _)]; [done|]. by apply elem_of_nil in Hl.
  - rewrite IH, active_line_capture. split.
    + intros [H|(line & Hl & Hc)].
      * destruct (active_capture l) as [m|] eqn:E; [|by left].
        apply elem_of_union in H as [H|H]; [|by left].
        apply elem_of_singleton in H as ->. right. exists l. split; [left|done].
      * right. exists line. split; [by right|done].
    + intros [H|(line & Hl & Hc)].
      * left. destruct (active_capture l); [|done]. apply elem_of_union. by right.
      * apply elem_of_cons in Hl as [->|Hl].
        -- left. rewrite Hc. apply elem_of_union. left. by apply elem_of_singleton.
        -- right. by exists line.
Qed.

Lemma elem_of_parseActive text n :
  n ∈ parseActiveChildrenFromListSas text <->
  exists line, line ∈ strings.Split text "010" /\ active_capture line = Some n.
Proof.
  unfold parseActiveChildrenFromListSas.
  rewrite elem_of_sort_Strings, elem_of_elements, active_fold.
  split; [intros [H|H]; [set_solver|done]|auto].
Qed.

End active_loop.

(** ** The loop of the Status Aggregator *)
Section status_loop.

Lemma status_run_snoc ls l : status_run (ls ++ [l]) = status_line (status_run ls) l.
Proof. unfold status_run. by rewrite fold_left_app. Qed.

Lemma lookup_set_active stats n k :
  set_active stats n !! k =
  if decide (n = k)
  then Some (mkChildStats true (InBytes (stats_get stats n)) (OutBytes (stats_get stats n))
                          (InPkts (stats_get stats n)) (OutPkts (stats_get stats n)))
  else stats !! k.
Proof. unfold set_active. by rewrite lookup_insert. Qed.

(** One step, as far as the invariants below need it: a header line for
    [n] makes [n] current and marks its record active; any other line
    keeps [current], and either keeps the map or overwrites the record of
    a non-empty [current] without touching its [Active] field. *)
Lemma status_line_step stats current line :
  exists stats' current', status_line (stats, current) line = (stats', current') /\
    match header_capture line with
    | Some n => current' = n /\ stats' = set_active stats n
    | None =>
      current' = current /\
      (stats' = stats \/
       current <> EmptyString /\ counter_line line = true /\
       exists r', stats' = <[ current := r' ]> stats /\
                  Active r' = Active (stats_get stats current))
    end.
Proof.
  destruct (header_capture line) as [n|] eqn:Hh.
  - exists (set_active stats n), n. by rewrite (status_line_header _ _ _ _ Hh).
  - destruct (status_line_other stats current line Hh)
      as (stats' & -> & [->|(Hne & Hc & re & [->| ->])]).
    + exists stats, current. auto.
    + eexists _, current. split; [done|]. split; [done|]. right.
      repeat split; auto. eexists. split; [reflexivity|done].
    + eexists _, current. split; [done|]. split; [done|]. right.
      repeat split; auto. eexists. split; [reflexivity|done].
Qed.

Lemma status_inv_run ls : status_inv ls (status_run ls).
Proof.
  induction ls as [|l ls IH] using rev_ind.
  - unfold status_run; simpl. split; [done|]. split; simpl.
    + intros k r. by rewrite lookup_empty.
    + intros n. rewrite lookup_empty. split; [by intros []|].
      intros (line & Hl & _). by apply elem_of_nil in Hl.
  - rewrite status_run_snoc. destruct (status_run ls) as [stats current].
    destruct IH as (Hcur & Hact & Hdom); simpl in Hcur, Hact, Hdom.
    destruct (status_line_step stats current l) as (stats' & current' & -> & Hstep).
    destruct (header_capture l) as [m|] eqn:Hh.
    + destruct Hstep as [-> ->]. split; [|split]; simpl.
      * intros _. rewrite lookup_set_active. by rewrite decide_True.
      * intros k r. rewrite lookup_set_active. case_decide; [by intros [= <-]|apply Hact].
      * intros n. rewrite lookup_set_active. case_decide as Hk.
        -- subst. split; [|done]. intros _. exists l. split; [|done].
           apply elem_of_app. right. by left.
        -- rewrite Hdom. split; intros (line & Hl & Hc).
           ++ exists line. split; [|done]. apply elem_of_app. by left.
           ++ apply elem_of_app in Hl as [Hl|Hl]; [by exists line|].
              apply list_elem_of_singleton in Hl as ->. congruence.
    + assert (Hls : forall n, (exists line, line ∈ ls ++ [l] /\ header_capture line = Some n)
                          <-> exists line, line ∈ ls /\ header_capture line = Some n).
      { intros n. split; intros (line & Hl & Hc).
        - apply elem_of_app in Hl as [Hl|Hl]; [by exists line|].
          apply list_elem_of_singleton in Hl as ->. congruence.
        - exists line. split; [|done]. apply elem_of_app. by left. }
      destruct Hstep as [-> [->|(Hne & _ & r' & -> & Hr')]].
      * split; [|split]; simpl; auto. intros n. rewrite Hls. apply Hdom.
      * destruct (Hcur Hne) as [r0 Hr0].
        unfold stats_get in Hr'. rewrite Hr0 in Hr'. simpl in Hr'.
        split; [|split]; simpl.
        -- intros _. by rewrite lookup_insert_eq.
        -- intros k r. rewrite lookup_insert. case_decide; [|apply Hact].
           intros [= <-]. rewrite Hr'. by apply (Hact current).
        -- intros n. rewrite Hls, <- Hdom, lookup_insert. case_decide; [|done].
           subst. split; [by intros|by intros; eexists].
Qed.

Lemma elem_of_dom_parseStatus text n :
  n ∈ dom (parseStatusToStats text) <->
  exists line, line ∈ strings.Split text "010" /\ header_capture line = Some n.
Proof.
  change (parseStatusToStats text) with (fst (status_run (strings.Split text "010"))).
  rewrite elem_of_dom. apply (status_inv_run (strings.Split text "010")).
Qed.

(** While no counter line is read under [current = n], the record of [n]
    has zero counters. *)
Lemma status_run_zero ls n :
  (forall pre line post, ls = pre ++ line :: post ->
     header_capture line = None -> counter_line line = true ->
     snd (status_run pre) <> n) ->
  forall r, fst (status_run ls) !! n = Some r -> r = mkChildStats true 0 0 0 0.
Proof.
  induction ls as [|l ls IH] using rev_ind; intros Hno r.
  - unfold status_run; simpl. by rewrite lookup_empty.
  - assert (IH' : forall r, fst (status_run ls) !! n = Some r -> r = mkChildStats true 0 0 0 0).
    { apply IH. intros pre line post -> Hh Hc.
      apply (Hno pre line (post ++ [l])); [|done|done].
      by rewrite <- app_assoc. }
    specialize (Hno ls l [] eq_refl).
    rewrite status_run_snoc. destruct (status_run ls) as [stats current]; simpl in IH', Hno.
    destruct (header_capture l) as [m|] eqn:Hh.
    + rewrite (status_line_header _ _ _ _ Hh); simpl.
      rewrite lookup_set_active. case_decide as Hm; [|apply IH'].
      subst m. intros [= <-]. unfold stats_get.
      destruct (stats !! n) as [r0|] eqn:E0; simpl; [|done].
      by rewrite (IH' r0 eq_refl).
    + destruct (status_line_other stats current l Hh)
        as (stats' & -> & [->|(Hne & Hc & re & Hre)]); simpl; [apply IH'|].
      specialize (Hno eq_refl Hc).
      destruct Hre as [-> | ->]; unfold set_in, set_out;
        rewrite lookup_insert_ne by done; apply IH'.
Qed.

End status_loop.

(** ** The matcher meets a relational reading of the patterns *)
Section engine.

Lemma many_sound g p k : forall aft bef cs res,
  many g p k bef aft cs = Some res ->
  exists its aft', aft = its ++ aft' /\
    Forall (fun it => p (rune it) = true) its /\
    k (Cur (rev its ++ bef) aft') cs = Some res.
Proof.
  induction aft as [|it aft IH]; intros bef cs res H; simpl in H.
  - exists [], []. by repeat split.
  - destruct (p (rune it)) eqn:Hp.
    + assert (Hrec : many g p k (it :: bef) aft cs = Some res ->
                     exists its aft', it :: aft = its ++ aft' /\
                       Forall (fun it => p (rune it) = true) its /\
                       k (Cur (rev its ++ bef) aft') cs = Some res).
      { intros Hm. destruct (IH _ _ _ Hm) as (its & aft' & -> & Hall & Hk).
        exists (it :: its), aft'. split; [done|]. split; [by constructor|].
        simpl. by rewrite <- app_assoc. }
      destruct g.
      * destruct (many true p k (it :: bef) aft cs) eqn:Hm.
        -- injection H as <-. by apply Hrec.
        -- exists [], (it :: aft). by repeat split.
      * destruct (k (Cur bef (it :: aft)) cs) eqn:Hk.
        -- injection H as <-. exists [], (it :: aft). by repeat split.
        -- by apply Hrec.
    + exists [], (it :: aft). by repeat split.
Qed.

Lemma exec_sound r : forall k c cs res,
  exec r k c cs = Some res ->
  exists c' cs', matches r c cs c' cs' /\ k c' cs' = Some res.
Proof.
  induction r as [|p|r1 IH1 r2 IH2|r1 IH1 r2 IH2|g p|i r IH|ml| |];
    intros k c cs res H; simpl in H.
  - exists c, cs. split; [constructor|done].
  - destruct c as [bef [|it aft]]; simpl in H; [done|].
    destruct (p (rune it)) eqn:Hp; [|done].
    eexists _, cs. split; [by constructor|done].
  - apply IH1 in H as (c1 & cs1 & Hm1 & H).
    apply IH2 in H as (c2 & cs2 & Hm2 & H).
    exists c2, cs2. split; [by econstructor|done].
  - destruct (exec r1 k c cs) eqn:E1.
    + injection H as <-. apply IH1 in E1 as (c' & cs' & Hm & Hk).
      exists c', cs'. split; [by apply matches_Alt_l|done].
    + apply IH2 in H as (c' & cs' & Hm & Hk).
      exists c', cs'. split; [by apply matches_Alt_r|done].
  - destruct c as [bef aft]; simpl in H.
    apply many_sound in H as (its & aft' & -> & Hall & Hk).
    eexists _, cs. split; [by constructor|done].
  - apply IH in H as (c' & cs' & Hm & Hk).
    eexists c', _. split; [by constructor|done].
  - destruct (_ || _) eqn:E; [|done]. exists c, cs. split; [|done].
    constructor. apply orb_true_iff in E as [E|E].
    + left. by apply Z.eqb_eq.
    + right. apply andb_true_iff in E as [-> E]. split; [done|by apply Z.eqb_eq].
  - destruct (_ =? _)%Z eqn:E; [|done]. exists c, cs. split; [|done].
    constructor. by apply Z.eqb_eq.
  - destruct (xorb _ _) eqn:E; [|done]. exists c, cs. split; [|done].
    constructor. by destruct (word (prev_rune c)), (word (next_rune c)).
Qed.

(** A match moves the position forward over a run of runes of the
    input. *)
Lemma matches_advance r c cs c' cs' :
  matches r c cs c' cs' ->
  exists its, after c = its ++ after c' /\ before c' = rev its ++ before c.
Proof.
  induction 1 as [c cs|p it bef aft cs Hp|r1 r2 c cs c1 cs1 c2 cs2 _ IH1 _ IH2
                   |r1 r2 c cs c' cs' _ IH|r1 r2 c cs c' cs' _ IH|g p its bef aft cs Hall
                   |i r c cs c' cs' _ IH|ml c cs Hb|c cs He|c cs Hw]; simpl;
    try (by exists []); try done.
  - by exists [it].
  - destruct IH1 as (its1 & Ha1 & Hb1), IH2 as (its2 & Ha2 & Hb2).
    exists (its1 ++ its2). rewrite Ha1, Ha2, Hb2, Hb1, rev_app_distr, <- !app_assoc. done.
  - by exists its.
Qed.

Lemma matches_input r c cs c' cs' : matches r c cs c' cs' -> input c' = input c.
Proof.
  intros H. apply matches_advance in H as (its & Ha & Hb). unfold input.
  rewrite Ha, Hb, rev_app_distr, rev_involutive, <- app_assoc. done.
Qed.

Lemma consumed_advance c c' its :
  before c' = rev its ++ before c -> consumed c c' = join its.
Proof.
  intros Hb. unfold consumed. rewrite Hb, length_app, length_rev.
  replace (List.length its + List.length (before c) - List.length (before c))%nat
    with (List.length (rev its)) by (rewrite length_rev; lia).
  rewrite firstn_app, firstn_all, Nat.sub_diag. simpl.
  by rewrite app_nil_r, rev_involutive.
Qed.

Lemma matches_no_cap r c cs c' cs' :
  matches r c cs c' cs' -> no_cap r = true -> cs' = cs.
Proof.
  induction 1; simpl; intros Hn; try done.
  - apply andb_true_iff in Hn as [Hn1 Hn2]. rewrite IHmatches2, IHmatches1; done.
  - apply andb_true_iff in Hn as [Hn1 Hn2]. auto.
  - apply andb_true_iff in Hn as [Hn1 Hn2]. auto.
Qed.

Lemma matches_Plus g p c cs c' cs' :
  matches (Plus g p) c cs c' cs' ->
  exists its, its <> [] /\ Forall (fun it => p (rune it) = true) its /\
    after c = its ++ after c' /\ before c' = rev its ++ before c.
Proof.
  unfold Plus. intros Hm.
  inversion Hm as [| |r1 r2 c0 cs0 c1 cs1 c2 cs2 Hc Hmany| | | | | | |]; subst.
  inversion Hc; subst. inversion Hmany; subst. simpl.
  exists (it :: its). split; [done|]. split; [by constructor|]. split; [done|].
  simpl. by rewrite <- app_assoc.
Qed.

(** What group 1 holds after a match of a pattern that sets it once: a
    non-empty run of runes of the class, taken from the input. *)
Lemma matches_sets1 p r c cs c' cs' :
  sets1 p r -> matches r c cs c' cs' ->
  exists its pre post,
    cap_get 1 cs' = join its /\ its <> [] /\
    Forall (fun it => p (rune it) = true) its /\
    input c = pre ++ its ++ post.
Proof.
  intros Hs. revert c cs c' cs'.
  induction Hs as [g|r1 r2 Hs IH Hn|r1 r2 Hn Hs IH]; intros c cs c' cs' Hm.
  - inversion Hm as [| | | | | |i r c0 cs0 c0' cs0' Hm'| | |]; subst.
    apply matches_Plus in Hm' as (its & Hne & Hall & Ha & Hb).
    exists its, (rev (before c)), (after c').
    unfold cap_get; simpl. rewrite (consumed_advance _ _ _ Hb).
    unfold input. by rewrite Ha.
  - inversion Hm as [| |r1' r2' c0 cs0 c1 cs1 c2 cs2 Hm1 Hm2| | | | | | |]; subst.
    apply (IH _ _ _ _) in Hm1 as (its & pre & post & Hcap & Hne & Hall & Hin).
    rewrite (matches_no_cap _ _ _ _ _ Hm2 Hn). by exists its, pre, post.
  - inversion Hm as [| |r1' r2' c0 cs0 c1 cs1 c2 cs2 Hm1 Hm2| | | | | | |]; subst.
    apply (IH _ _ _ _) in Hm2 as (its & pre & post & Hcap & Hne & Hall & Hin).
    rewrite (matches_input _ _ _ _ _ Hm1) in Hin. by exists its, pre, post.
Qed.

Lemma search_sound r : forall aft bef f,
  search r bef aft = Some f ->
  exec r accept (m_start f) [] = Some (m_end f, m_caps f) /\
  input (m_start f) = rev bef ++ aft.
Proof.
  induction aft as [|it aft IH]; intros bef f H; simpl in H.
  - destruct (exec r accept (Cur bef []) []) as [[c' cs]|] eqn:E; [|done].
    injection H as <-. simpl. by rewrite E.
  - destruct (exec r accept (Cur bef (it :: aft)) []) as [[c' cs]|] eqn:E.
    + injection H as <-. simpl. by rewrite E.
    + apply IH in H as [He Hi]. split; [done|]. rewrite Hi. simpl.
      by rewrite <- app_assoc.
Qed.

Lemma sets1_NumSubexp p r : sets1 p r -> (1 <= NumSubexp r)%nat.
Proof. induction 1; simpl; lia. Qed.

(** The group 1 a successful [FindStringSubmatch] returns. *)
Lemma submatch_sets1 p re line :
  sets1 p re -> MatchString re line = true ->
  exists its pre post,
    submatch re line 1 = join its /\ its <> [] /\
    Forall (fun it => p (rune it) = true) its /\
    runes line = pre ++ its ++ post.
Proof.
  intros Hs Hm. unfold MatchString in Hm. unfold submatch, FindStringSubmatch.
  destruct (search re [] (runes line)) as [f|] eqn:E; [|done]. simpl.
  apply search_sound in E as [He Hi]. simpl in Hi.
  apply exec_sound in He as (c' & cs' & Hmt & Hacc).
  injection Hacc as -> ->.
  destruct (matches_sets1 _ _ _ _ _ _ Hs Hmt) as (its & pre & post & Hcap & Hne & Hall & Hin).
  exists its, pre, post. rewrite <- Hi, <- Hin. repeat split; try done.
  unfold sub, submatches. simpl.
  pose proof (sets1_NumSubexp _ _ Hs).
  destruct (NumSubexp re) as [|k]; [lia|]. simpl. done.
Qed.

End engine.

(** ** Decoding *)

Section decoding.

Lemma first_size s0 sz lo hi : first s0 = Some (sz, lo, hi) -> (2 <= sz <= 4)%nat.
Proof.
  unfold first.
  repeat match goal with
  | |- context [if ?b then _ else _] => destruct b
  end; intros [= <- <- <-] || discriminate; lia.
Qed.

Lemma Decode_width c s r w :
  DecodeRuneInString (String c s) = (r, w) -> (1 <= w <= S (String.length s))%nat.
Proof.
  unfold DecodeRuneInString.
  destruct (byteZ c <? RuneSelf)%Z; [intros [= <- <-]; lia|].
  destruct (first (byteZ c)) as [[[sz lo] hi]|] eqn:Hf; [|intros [= <- <-]; lia].
  apply first_size in Hf.
  destruct (String.length (String c s) <? sz)%nat eqn:Hlen; [intros [= <- <-]; lia|].
  apply Nat.ltb_ge in Hlen. simpl in Hlen.
  destruct s as [|c1 s]; [intros [= <- <-]; simpl; lia|].
  destruct (_ || _); [intros [= <- <-]; simpl; lia|].
  destruct (sz <=? 2)%nat eqn:E2; [intros [= <- <-]; simpl; lia|].
  destruct s as [|c2 s]; [intros [= <- <-]; simpl; lia|].
  destruct (negb _); [intros [= <- <-]; simpl; lia|].
  destruct (sz <=? 3)%nat eqn:E3; [intros [= <- <-]; simpl; lia|].
  destruct s as [|c3 s]; [intros [= <- <-]; simpl; lia|].
  destruct (negb _); intros [= <- <-]; simpl; lia.
Qed.

Lemma runes_skip_sdrop s : forall k, runes_skip k s = runes (sdrop k s).
Proof.
  induction s as [|c s IH]; intros [|k]; simpl; auto.
Qed.

Lemma sdrop_length k : forall s, (k <= String.length s)%nat ->
  String.length (sdrop k s) = (String.length s - k)%nat.
Proof.
  induction k as [|k IH]; intros [|c s] H; simpl in *; try lia.
  apply IH. lia.
Qed.

Lemma append_cons c a b : String c a +:+ b = String c (a +:+ b).
Proof. reflexivity. Qed.

Lemma append_assoc a : forall b c, (a +:+ b) +:+ c = a +:+ (b +:+ c).
Proof.
  induction a as [|x a IH]; intros b c; [done|].
  rewrite !append_cons. f_equal. apply IH.
Qed.

Lemma append_nil_r a : a +:+ "" = a.
Proof. induction a as [|x a IH]; [done|]. rewrite append_cons. by f_equal. Qed.

Lemma append_length a : forall b,
  String.length (a +:+ b) = (String.length a + String.length b)%nat.
Proof.
  induction a as [|x a IH]; intros b; [done|].
  rewrite append_cons. simpl. by rewrite IH.
Qed.

Lemma substring_sdrop k : forall s, (k <= String.length s)%nat ->
  s = substring 0 k s +:+ sdrop k s.
Proof.
  induction k as [|k IH]; intros [|c s] H; simpl in *; try done; try lia.
  rewrite append_cons. f_equal. apply IH. lia.
Qed.

Lemma substring_length k : forall s, (k <= String.length s)%nat ->
  String.length (substring 0 k s) = k.
Proof.
  induction k as [|k IH]; intros [|c s] H; simpl in *; try done; try lia.
  f_equal. apply IH. lia.
Qed.

(** The first rune and the rest. *)
Lemma runes_cons c s :
  exists r w, DecodeRuneInString (String c s) = (r, w) /\
    (1 <= w <= S (String.length s))%nat /\
    runes (String c s) =
      Item r (substring 0 w (String c s)) :: runes (sdrop w (String c s)).
Proof.
  destruct (DecodeRuneInString (String c s)) as [r w] eqn:E.
  exists r, w. split; [done|]. pose proof (Decode_width _ _ _ _ E) as Hw.
  split; [done|]. unfold runes at 1. cbn [runes_skip]. rewrite E.
  rewrite runes_skip_sdrop. destruct w as [|w]; [lia|]. simpl.
  by rewrite Nat.sub_0_r.
Qed.

Lemma join_cons it l : join (it :: l) = src it +:+ join l.
Proof. reflexivity. Qed.

Lemma join_app l1 l2 : join (l1 ++ l2) = join l1 +:+ join l2.
Proof.
  induction l1 as [|it l1 IH]; simpl; [done|].
  by rewrite IH, append_assoc.
Qed.

Lemma join_runes_len n : forall s, (String.length s <= n)%nat -> join (runes s) = s.
Proof.
  induction n as [|n IH]; intros [|c s] Hlen; simpl in Hlen; try done; try lia.
  destruct (runes_cons c s) as (r & w & Hd & Hw & ->).
  rewrite join_cons. cbn [src]. rewrite IH.
  - symmetry. apply substring_sdrop. simpl. lia.
  - rewrite sdrop_length by (simpl; lia). simpl. lia.
Qed.

Lemma join_runes s : join (runes s) = s.
Proof. by apply (join_runes_len (String.length s)). Qed.


Lemma append_nil_l a : "" +:+ a = a.
Proof. reflexivity. Qed.

(** Decoding reads no byte beyond the rune it returns, an invalid
    encoding counting as one byte: cutting the string after a whole
    number of runes leaves the first rune as it was. *)
Lemma Decode_prefix a b r w :
  DecodeRuneInString (a +:+ b) = (r, w) ->
  (1 <= w <= String.length a)%nat ->
  DecodeRuneInString a = (r, w).
Proof.
  destruct a as [|c0 a]; [simpl; lia|].
  rewrite append_cons. unfold DecodeRuneInString.
  destruct (byteZ c0 <? RuneSelf)%Z; [done|].
  destruct (first (byteZ c0)) as [[[sz lo] hi]|] eqn:Hf; [|done].
  apply first_size in Hf.
  destruct sz as [|[|[|[|[|sz]]]]]; try lia; clear Hf;
  destruct a as [|c1 [|c2 [|c3 a]]];
  destruct b as [|d1 [|d2 [|d3 b]]];
  rewrite ?append_cons, ?append_nil_l, ?append_nil_r;
  cbn [String.length Nat.ltb Nat.leb];
  repeat match goal with
  | |- context [if ?b then _ else _] => destruct b
  end;
  intros [= <- <-]; intros; simpl in *; try reflexivity; try lia.
Qed.


Lemma substring_append x : forall rest, substring 0 (String.length x) (x +:+ rest) = x.
Proof.
  induction x as [|c x IH]; intros rest.
  - by destruct rest.
  - rewrite append_cons. cbn [substring String.length]. by rewrite IH.
Qed.

Lemma sdrop_append x : forall rest, sdrop (String.length x) (x +:+ rest) = rest.
Proof.
  induction x as [|c x IH]; intros rest.
  - by destruct rest.
  - rewrite append_cons. cbn [sdrop String.length]. apply IH.
Qed.

Lemma runes_decompose s it l :
  runes s = it :: l ->
  DecodeRuneInString s = (rune it, String.length (src it)) /\
  (1 <= String.length (src it))%nat /\
  exists rest, s = src it +:+ rest /\ l = runes rest.
Proof.
  destruct s as [|c s]; [done|].
  destruct (runes_cons c s) as (r & w & Hd & Hw & ->).
  pose proof (substring_length w (String c s) ltac:(simpl; lia)) as Hlen.
  pose proof (substring_sdrop w (String c s) ltac:(simpl; lia)) as Hsplit.
  remember (substring 0 w (String c s)) as x eqn:Hx. clear Hx.
  remember (String c s) as s0 eqn:Hs0. clear Hs0.
  intros [= <- <-]. cbn [rune src]. rewrite Hlen.
  split; [done|]. split; [lia|]. by exists (sdrop w s0).
Qed.

Lemma runes_compose x rest r :
  DecodeRuneInString (x +:+ rest) = (r, String.length x) ->
  (1 <= String.length x)%nat ->
  runes (x +:+ rest) = Item r x :: runes rest.
Proof.
  intros Hd Hx. destruct (x +:+ rest) as [|c s] eqn:E.
  { destruct x; [simpl in Hx; lia|done]. }
  destruct (runes_cons c s) as (r' & w' & Hd' & Hw' & ->).
  rewrite Hd in Hd'. injection Hd' as <- <-.
  by rewrite <- E, substring_append, sdrop_append.
Qed.

Lemma decoded_tail it l : runes (join (it :: l)) = it :: l -> runes (join l) = l.
Proof.
  intros H. apply runes_decompose in H as (_ & _ & rest & Hs & ->).
  rewrite join_cons in Hs. by apply String.app_inj in Hs as ->.
Qed.

Lemma decoded_init l : forall it,
  runes (join (l ++ [it])) = l ++ [it] -> runes (join l) = l.
Proof.
  induction l as [|it0 l IH]; intros it H; [done|].
  pose proof H as H'. rewrite <- app_comm_cons, join_cons in H'.
  apply runes_decompose in H' as (Hd & Hlen & rest & Hs & Hl).
  apply String.app_inj in Hs as <-. symmetry in Hl. apply IH in Hl as Hl'.
  rewrite join_cons. rewrite (runes_compose _ _ (rune it0)); [| |done].
  - rewrite Hl'. by destruct it0.
  - apply (Decode_prefix _ (src it +:+ "")); [|rewrite append_length; lia].
    rewrite append_assoc. rewrite join_app in Hd. exact Hd.
Qed.

(** A run of consecutive runes of a string decodes to itself. *)
Lemma decoded_infix s pre its post :
  runes s = pre ++ its ++ post -> runes (join its) = its.
Proof.
  intros Hs.
  assert (H : runes (join (pre ++ its ++ post)) = pre ++ its ++ post)
    by (by rewrite <- Hs, join_runes).
  clear Hs. induction pre as [|it pre IH]; rewrite <- ?app_comm_cons, ?app_nil_l in H.
  - induction post as [|it post IH] using rev_ind.
    + by rewrite app_nil_r in H.
    + apply IH. rewrite app_assoc in H. by apply decoded_init in H.
  - apply IH. by apply decoded_tail in H.
Qed.

Lemma join_nonempty its : its <> [] -> runes (join its) = its -> join its <> "".
Proof. intros Hne Hd E. rewrite E in Hd. by destruct its. Qed.


End decoding.

(** ** Trimming *)
Section trimming.
Import strings.

Lemma drop_spaces_suffix l : exists pre, l = pre ++ drop_spaces l.
Proof.
  induction l as [|it l [pre IH]]; simpl; [by exists []|].
  destruct (unicode.IsSpace (rune it)); [|by exists []].
  exists (it :: pre). simpl. by f_equal.
Qed.

Lemma drop_spaces_head l it l' :
  drop_spaces l = it :: l' -> unicode.IsSpace (rune it) = false.
Proof.
  induction l as [|it0 l IH]; simpl; [done|].
  destruct (unicode.IsSpace (rune it0)) eqn:E; [done|]. by intros [= <- _].
Qed.

Lemma drop_spaces_fixed l :
  match l with it :: _ => unicode.IsSpace (rune it) = false | [] => True end ->
  drop_spaces l = l.
Proof. destruct l as [|it l]; simpl; [done|]. by intros ->. Qed.

Lemma drop_spaces_idem l : drop_spaces (drop_spaces l) = drop_spaces l.
Proof.
  apply drop_spaces_fixed. destruct (drop_spaces l) as [|it l'] eqn:E; [done|].
  by apply drop_spaces_head in E.
Qed.

(** What [TrimSpace] returns: a run of consecutive runes of the string
    that neither starts nor ends with a white-space rune. *)
Lemma TrimSpace_items s :
  exists pre its post,
    runes s = pre ++ its ++ post /\ TrimSpace s = join its /\
    drop_spaces its = its /\ drop_spaces (rev its) = rev its.
Proof.
  unfold TrimSpace.
  destruct (drop_spaces_suffix (runes s)) as [pre Hpre].
  destruct (drop_spaces_suffix (rev (drop_spaces (runes s)))) as [q Hq].
  set (L1 := drop_spaces (runes s)) in *.
  set (D := drop_spaces (rev L1)) in *.
  assert (HL1 : L1 = rev D ++ rev q).
  { rewrite <- (rev_involutive L1), Hq, rev_app_distr. done. }
  exists pre, (rev D), (rev q). split; [by rewrite <- HL1|]. split; [done|].
  split.
  - apply drop_spaces_fixed. destruct (rev D) as [|it t] eqn:E; [done|].
    simpl in HL1. by apply (drop_spaces_head (runes s) it (t ++ rev q)).
  - rewrite rev_involutive. apply drop_spaces_idem.
Qed.

Lemma TrimSpace_idem s : TrimSpace (TrimSpace s) = TrimSpace s.
Proof.
  destruct (TrimSpace_items s) as (pre & its & post & Hr & -> & Hl & Hrv).
  unfold TrimSpace. rewrite (decoded_infix _ _ _ _ Hr), Hl, Hrv.
  by rewrite rev_involutive.
Qed.

End trimming.

(** ** The names the extractors emit *)

Section names.

Lemma capture_class p re line :
  sets1 p re -> MatchString re line = true -> matches_class p (submatch re line 1).
Proof.
  intros Hs Hm.
  destruct (submatch_sets1 _ _ _ Hs Hm) as (its & pre & post & -> & Hne & Hall & Hr).
  apply decoded_infix in Hr. split; [by apply join_nonempty|by rewrite Hr].
Qed.

Ltac solve_sets1 :=
  repeat first
    [ apply sets1_here
    | apply sets1_first; [apply sets1_here|reflexivity]
    | apply sets1_later; [reflexivity|] ].

Lemma sets1_reHeaderHashESP : sets1 name_cls Status.reHeaderHashESP.
Proof. unfold Status.reHeaderHashESP; cbn [Seq]; solve_sets1. Qed.
Lemma sets1_reHeaderBrace : sets1 name_cls Status.reHeaderBrace.
Proof. unfold Status.reHeaderBrace; cbn [Seq]; solve_sets1. Qed.
Lemma sets1_reHeaderChildSA : sets1 name_cls Status.reHeaderChildSA.
Proof. unfold Status.reHeaderChildSA; cbn [Seq]; solve_sets1. Qed.
Lemma sets1_reHeaderQuoted : sets1 not_quote Status.reHeaderQuoted.
Proof. unfold Status.reHeaderQuoted; cbn [Seq]; solve_sets1. Qed.

Lemma sets1_reBrace : sets1 name_cls_fold ActiveSas.reBrace.
Proof. unfold ActiveSas.reBrace; cbn [Seq]; solve_sets1. Qed.
Lemma sets1_reChildSa : sets1 name_cls_fold ActiveSas.reChildSa.
Proof. unfold ActiveSas.reChildSa; cbn [Seq]; solve_sets1. Qed.
Lemma sets1_reQuoted : sets1 not_quote ActiveSas.reQuoted.
Proof. unfold ActiveSas.reQuoted; cbn [Seq]; solve_sets1. Qed.
Lemma sets1_reInstalled : sets1 name_cls_fold ActiveSas.reInstalled.
Proof. unfold ActiveSas.reInstalled; cbn [Seq]; solve_sets1. Qed.
Lemma sets1_reInstalledLog : sets1 not_quote ActiveSas.reInstalledLog.
Proof. unfold ActiveSas.reInstalledLog; cbn [Seq]; solve_sets1. Qed.
Lemma sets1_reChildHashESP : sets1 name_cls_fold ActiveSas.reChildHashESP.
Proof. unfold ActiveSas.reChildHashESP; cbn [Seq]; solve_sets1. Qed.
Lemma sets1_reTolerantHeader : sets1 name_cls_fold ActiveSas.reTolerantHeader.
Proof. unfold ActiveSas.reTolerantHeader; cbn [Seq]; solve_sets1. Qed.

Lemma header_capture_class line n :
  header_capture line = Some n ->
  matches_class name_cls n \/
  (matches_class not_quote n /\
   MatchString Status.reHeaderQuoted line = true /\
   n = submatch Status.reHeaderQuoted line 1).
Proof.
  unfold header_capture, header_patterns, first_match.
  destruct (MatchString Status.reHeaderHashESP line) eqn:E1.
  { intros [= <-]. left. by apply capture_class; [apply sets1_reHeaderHashESP|]. }
  destruct (MatchString Status.reHeaderBrace line) eqn:E2.
  { intros [= <-]. left. by apply capture_class; [apply sets1_reHeaderBrace|]. }
  destruct (MatchString Status.reHeaderChildSA line) eqn:E3.
  { intros [= <-]. left. by apply capture_class; [apply sets1_reHeaderChildSA|]. }
  destruct (MatchString Status.reHeaderQuoted line) eqn:E4; [|done].
  intros [= <-]. right. split; [|done].
  by apply capture_class; [apply sets1_reHeaderQuoted|].
Qed.

Lemma active_capture_class line n :
  active_capture line = Some n ->
  matches_class name_cls_fold n \/
  (matches_class not_quote n /\
   exists re, (re = ActiveSas.reQuoted \/ re = ActiveSas.reInstalledLog) /\
     MatchString re line = true /\ n = submatch re line 1).
Proof.
  unfold active_capture, active_patterns, first_match.
  destruct (MatchString ActiveSas.reBrace line) eqn:E1.
  { intros [= <-]. left. by apply capture_class; [apply sets1_reBrace|]. }
  destruct (MatchString ActiveSas.reChildSa line) eqn:E2.
  { intros [= <-]. left. by apply capture_class; [apply sets1_reChildSa|]. }
  destruct (MatchString ActiveSas.reQuoted line) eqn:E3.
  { intros [= <-]. right. split; [by apply capture_class; [apply sets1_reQuoted|]|].
    exists ActiveSas.reQuoted. auto. }
  destruct (MatchString ActiveSas.reInstalled line) eqn:E4.
  { intros [= <-]. left. by apply capture_class; [apply sets1_reInstalled|]. }
  destruct (MatchString ActiveSas.reInstalledLog line) eqn:E5.
  { intros [= <-]. right. split; [by apply capture_class; [apply sets1_reInstalledLog|]|].
    exists ActiveSas.reInstalledLog. auto. }
  destruct (MatchString ActiveSas.reChildHashESP line) eqn:E6.
  { intros [= <-]. left. by apply capture_class; [apply sets1_reChildHashESP|]. }
  destruct (MatchString ActiveSas.reTolerantHeader line) eqn:E7; [|done].
  intros [= <-]. left. by apply capture_class; [apply sets1_reTolerantHeader|].
Qed.

End names.

(** ** The matcher on typical lines *)
Section examples.

Example hash_esp_header :
  FindStringSubmatch Status.reHeaderHashESP
    "tun1: #3, reqid 1, INSTALLED, TUNNEL, ESP:AES_CBC"
  = Some ["tun1: #3, reqid 1, INSTALLED, TUNNEL, ESP:"; "tun1"].
Proof. vm_compute. reflexivity. Qed.

Example brace_colon :
  submatch Status.reHeaderBrace "  child net-1{12}" 1 = "net-1" /\
  MatchString ActiveSas.reBrace "  child net-1{12}" = false /\
  submatch ActiveSas.reBrace "  Child net-1{12}:" 1 = "net-1" /\
  MatchString Status.reHeaderBrace "  Child net-1{12}:" = false.
Proof. vm_compute. auto. Qed.

Example folded_class :
  submatch ActiveSas.reBrace (kelvin +:+ "1{2}:") 1 = kelvin +:+ "1" /\
  MatchString Status.reHeaderBrace (kelvin +:+ "1{2}:") = false.
Proof. vm_compute. auto. Qed.

Example brace_then_word_boundary :
  MatchString Status.reHeaderChildSA "CHILD_SA zz{22} up" = false /\
  submatch Status.reHeaderChildSA "CHILD_SA zz{22}up" 1 = "zz".
Proof. vm_compute. auto. Qed.

Example name_backs_off_to_boundary :
  submatch ListConns.reChildLine "child foo- bar" 1 = "foo".
Proof. vm_compute. reflexivity. Qed.

Example counter_forms :
  FindStringSubmatch Status.reInSPI "in  0xc1234567,  1000 bytes,   10 packets"
    = Some ["in  0xc1234567,  1000 bytes,   10 packets"; "1000"; "10"] /\
  FindStringSubmatch Status.reOutPrimary "  out: 2,048 bytes, 16 packets, 3s ago"
    = Some ["  out: 2,048 bytes, 16 packets"; "2,048"; "16"] /\
  FindStringSubmatch Status.reInAlt "in: esp bytes 512 of 9 packets 4 ok"
    = Some ["in: esp bytes 512 of 9 packets 4"; "512"; "4"] /\
  FindStringSubmatch Status.reOutNoColon "out esp bytes 1 packets 2"
    = Some ["out esp bytes 1 packets 2"; "1"; "2"].
Proof. vm_compute. auto. Qed.

Example split_on_separators :
  regexp.Split ListConns.reSep ", a, b/c ,, d " = [""; "a"; "b/c"; "d"; ""].
Proof. vm_compute. reflexivity. Qed.

Example find_all_multiline :
  parseChildrenFromListSas
    ("x{1}: up" +:+ String "010" (String "010" ("child ' q '" +:+ String "010" " child y{3}")))
  = ["x"; "y"; " q "].
Proof. vm_compute. reflexivity. Qed.

Example trim_space_unicode :
  strings.TrimSpace (String "009" (String "194" (String "160" ("a b" +:+ String "013" ""))))
  = "a b".
Proof. vm_compute. reflexivity. Qed.

(** Scenario B of the specification. *)
Example scenario_B :
  childrenJSONHandler
    ("conn: IKEv2" +:+ String "010" ("  site-b: TUNNEL, IPsec" +:+ String "010"
     "  site-a: TUNNEL, IPsec")) ""
  = ["site-a"; "site-b"].
Proof. vm_compute. reflexivity. Qed.

(** The two readings of one text can differ both ways. *)
Example status_key_not_listed_active :
  parseStatusToStats "foo{1}" = {[ "foo" := mkChildStats true 0 0 0 0 ]} /\
  parseActiveChildrenFromListSas "foo{1}" = [].
Proof. vm_compute. auto. Qed.

Example header_and_log_line :
  parseStatusToStats "tun1: #3, installed CHILD_SA 'x', ESP:AES"
    = {[ "tun1" := mkChildStats true 0 0 0 0 ]} /\
  parseActiveChildrenFromListSas "tun1: #3, installed CHILD_SA 'x', ESP:AES" = ["x"].
Proof. vm_compute. auto. Qed.

Example listing_token_outside_class :
  childrenJSONHandler "children: a/b, c" "" = ["a/b"; "c"].
Proof. vm_compute. reflexivity. Qed.

End examples.

(** ** The claims about the Status Aggregator *)

(** C5. The Status Aggregator maps the three lines of Scenario A (the
    hash-ESP header of [tun1], an inbound and an outbound counter line in
    the SPI form) to exactly the mapping with the single key [tun1], whose
    record is active with 1000 bytes and 10 packets in, 2000 bytes and 20
    packets out. *)
Theorem C5_scenario_A :
  parseStatusToStats scenarioA = {[ "tun1" := mkChildStats true 1000 2000 10 20 ]}.
Proof. vm_compute. reflexivity. Qed.



(** C7. A name has a record in the mapping exactly when some line of the
    input is a header line capturing that name. The lines before the first
    header line are ignored (a counter line with no header before it leaves
    no entry), and a name under which no counter line was read has an
    active record with all four counters zero. *)
Theorem C7_record_iff_header text :
  let lines := strings.Split text "010" in
  (forall n, n ∈ dom (parseStatusToStats text) <->
             exists line, line ∈ lines /\ header_capture line = Some n) /\
  (forall pre rest, lines = pre ++ rest ->
     Forall (fun line => header_capture line = None) pre ->
     parseStatusToStats text = fst (status_run rest)) /\
  (forall n,
     (forall pre line post, lines = pre ++ line :: post ->
        header_capture line = None -> counter_line line = true ->
        snd (status_run pre) <> n) ->
     forall r, parseStatusToStats text !! n = Some r -> r = mkChildStats true 0 0 0 0).
Proof.
  intros lines. split; [|split].
  1: exact (elem_of_dom_parseStatus text).
  all: change (parseStatusToStats text) with (fst (status_run lines)).
  - intros pre rest -> Hpre. f_equal. unfold status_run. rewrite fold_left_app. f_equal.
    induction Hpre as [|l pre Hl _ IH]; [done|]. cbn [fold_left].
    destruct (status_line_other ∅ "" l Hl) as (stats' & -> & [->|(Hne & _)]); done.
  - intros n. apply status_run_zero.
Qed.

Lemma C7_witness :
  parseStatusToStats "in  0xc1234567,  1000 bytes,   10 packets" = ∅ /\
  forall r, parseStatusToStats "tun1: #3, reqid 1, TUNNEL, ESP:AES" !! "tun1" = Some r ->
            r = mkChildStats true 0 0 0 0.
Proof.
  split.
  - refine (proj1 (proj2 (C7_record_iff_header "in  0xc1234567,  1000 bytes,   10 packets"))
              ["in  0xc1234567,  1000 bytes,   10 packets"] [] _ _).
    + reflexivity.
    + constructor; [vm_compute; reflexivity|constructor].
  - refine (proj2 (proj2 (C7_record_iff_header "tun1: #3, reqid 1, TUNNEL, ESP:AES")) "tun1" _).
    intros [|l0 [|l1 pre]] line post Heq Hh; try discriminate Heq.
    injection Heq as <- <-. vm_compute in Hh. discriminate Hh.
Defined.

(** C8. A header line for a name that already has a record makes that
    record active and leaves its four counters as they were; for a name
    without a record it creates an active record whose four counters are
    zero. The name becomes current and no other record changes. *)
Theorem C8_header_keeps_counters stats current line n :
  header_capture line = Some n ->
  exists stats',
    status_line (stats, current) line = (stats', n) /\
    (forall r, stats !! n = Some r ->
       stats' !! n = Some (mkChildStats true (InBytes r) (OutBytes r) (InPkts r) (OutPkts r))) /\
    (stats !! n = None -> stats' !! n = Some (mkChildStats true 0 0 0 0)) /\
    (forall k, k <> n -> stats' !! k = stats !! k).
Proof.
  intros Hh. exists (set_active stats n). rewrite (status_line_header _ _ _ _ Hh).
  split; [done|]. split; [|split].
  - intros r Hr. rewrite lookup_set_active, decide_True by done.
    unfold stats_get. by rewrite Hr.
  - intros Hr. rewrite lookup_set_active, decide_True by done.
    unfold stats_get. by rewrite Hr.
  - intros k Hk. rewrite lookup_set_active, decide_False; [done|congruence].
Qed.

Lemma C8_witness :
  exists stats',
    status_line ({[ "tun1" := mkChildStats false 7 8 9 10 ]}, "")
                "tun1: #3, reqid 1, TUNNEL, ESP:AES" = (stats', "tun1") /\
    stats' !! "tun1" = Some (mkChildStats true 7 8 9 10).
Proof.
  destruct (C8_header_keeps_counters {[ "tun1" := mkChildStats false 7 8 9 10 ]} ""
              "tun1: #3, reqid 1, TUNNEL, ESP:AES" "tun1")
    as (stats' & Hstep & Hold & _ & _).
  - vm_compute. reflexivity.
  - exists stats'. split; [exact Hstep|].
    apply (Hold (mkChildStats false 7 8 9 10)). vm_compute. reflexivity.
Defined.

(** C10. Every record of the mapping has [active = true]: records are
    created by header lines, which set the field, and the counter lines
    write the record of the current connection with the field unchanged. *)
Theorem C10_records_active text n r :
  parseStatusToStats text !! n = Some r -> Active r = true.
Proof.
  change (parseStatusToStats text) with (fst (status_run (strings.Split text "010"))).
  apply (status_inv_run (strings.Split text "010")).
Qed.

Lemma C10_witness : Active (mkChildStats true 1000 2000 10 20) = true.
Proof.
  apply (C10_records_active scenarioA "tun1"). vm_compute. reflexivity.
Defined.

(** ** The claims about the Active Connection Extractor *)

(** C2, as stated, fails: the line [a{1}: installed CHILD_SA 'b'] matches
    the brace pattern, which captures [a], and the log-style pattern,
    which captures [b]; only [a] is listed. *)
Lemma C2_counterexample :
  ~ (forall text line re,
       line ∈ strings.Split text "010" -> re ∈ active_patterns ->
       MatchString re line = true ->
       submatch re line 1 ∈ parseActiveChildrenFromListSas text).
Proof.
  intros H.
  specialize (H "a{1}: installed CHILD_SA 'b'" "a{1}: installed CHILD_SA 'b'"
                ActiveSas.reInstalledLog).
  assert (Hl : parseActiveChildrenFromListSas "a{1}: installed CHILD_SA 'b'" = ["a"])
    by (vm_compute; reflexivity).
  assert (Hs : submatch ActiveSas.reInstalledLog "a{1}: installed CHILD_SA 'b'" 1 = "b")
    by (vm_compute; reflexivity).
  rewrite Hl, Hs in H.
  assert (Hin : "b" ∈ ["a"]).
  { apply H.
    - change (strings.Split "a{1}: installed CHILD_SA 'b'" "010")
        with ["a{1}: installed CHILD_SA 'b'"]. by left.
    - unfold active_patterns. do 4 right. by left.
    - vm_compute. reflexivity. }
  apply list_elem_of_singleton in Hin. discriminate Hin.
Qed.

(** C2, amended. The seven patterns are tried on every line in the order
    of the [switch] (brace, CHILD_SA, quoted, INSTALLED, log-style
    installed, hash-ESP, tolerant header) and the first that matches wins:
    a name is listed exactly when it is the group 1 of the first pattern
    matching some line. A line that matches two patterns contributes the
    capture of the earlier one only. *)
Theorem C2_first_match_wins text n :
  n ∈ parseActiveChildrenFromListSas text <->
  exists line i re,
    line ∈ strings.Split text "010" /\
    active_patterns !! i = Some re /\
    MatchString re line = true /\
    (forall j re', (j < i)%nat -> active_patterns !! j = Some re' ->
                   MatchString re' line = false) /\
    n = submatch re line 1.
Proof.
  rewrite elem_of_parseActive. unfold active_capture. split.
  - intros (line & Hl & Hc). apply first_match_Some in Hc as (i & re & H).
    by exists line, i, re.
  - intros (line & i & re & Hl & H). exists line. split; [done|].
    apply first_match_Some. by exists i, re.
Qed.

(** C1, as stated, fails: the line [foo: INSTALLED] is listed by the
    Active Connection Extractor and is no header for the Status
    Aggregator. *)
Lemma C1_counterexample :
  ~ (forall text n,
       n ∈ parseActiveChildrenFromListSas text <-> n ∈ dom (parseStatusToStats text)).
Proof.
  intros H. specialize (H "foo: INSTALLED" "foo").
  assert (Ha : parseActiveChildrenFromListSas "foo: INSTALLED" = ["foo"])
    by (vm_compute; reflexivity).
  assert (Hs : parseStatusToStats "foo: INSTALLED" = ∅) by (vm_compute; reflexivity).
  rewrite Ha, Hs, dom_empty_L in H.
  apply (not_elem_of_empty (C := gset string) "foo"). apply H. by left.
Qed.

(** C1, amended. When the two components classify every line of the
    text alike (the first of the seven active patterns that matches the
    line and the first of the four header patterns that matches it capture
    the same name, or no pattern of either set matches), the active list
    and the keys of the status mapping are set-equal. *)
Theorem C1_set_equal_when_classified_alike text :
  Forall (fun line => active_capture line = header_capture line)
         (strings.Split text "010") ->
  forall n, n ∈ parseActiveChildrenFromListSas text <-> n ∈ dom (parseStatusToStats text).
Proof.
  intros Hall n. rewrite elem_of_parseActive.
  rewrite elem_of_dom_parseStatus.
  rewrite Forall_forall in Hall.
  split; intros (line & Hl & Hc); exists line; (split; [done|]).
  - by rewrite <- Hall.
  - by rewrite Hall.
Qed.

Lemma C1_witness :
  "tun1" ∈ parseActiveChildrenFromListSas scenarioA <->
  "tun1" ∈ dom (parseStatusToStats scenarioA).
Proof.
  apply (C1_set_equal_when_classified_alike scenarioA).
  assert (Hl : strings.Split scenarioA "010" =
               ["tun1: #3, reqid 1, INSTALLED, TUNNEL, ESP:AES_CBC";
                "in  0xc1234567,  1000 bytes,   10 packets";
                "out 0xc7654321,  2000 bytes,   20 packets"])
    by (vm_compute; reflexivity).
  rewrite Hl.
  repeat (apply Forall_cons_2; [vm_compute; reflexivity|]). apply Forall_nil_2.
Defined.

(** ** The Integer Normalizer *)

Section integer_normalizer.
Local Open Scope Z_scope.

Lemma wrap64_congr n m : n mod 2 ^ 64 = m mod 2 ^ 64 -> wrap64 n = wrap64 m.
Proof.
  intros H. unfold wrap64. f_equal.
  rewrite (Z.add_mod n), (Z.add_mod m) by lia. by rewrite H.
Qed.

Lemma wrap64_mod n : wrap64 n mod 2 ^ 64 = n mod 2 ^ 64.
Proof.
  unfold wrap64.
  rewrite <- (Z.add_opp_r _ (2 ^ 63)), Z.add_mod, Z.mod_mod, <- Z.add_mod by lia.
  f_equal. lia.
Qed.

Lemma wrap64_small n : - 2 ^ 63 <= n < 2 ^ 63 -> wrap64 n = n.
Proof. intros H. unfold wrap64. rewrite Z.mod_small; lia. Qed.

Lemma parseInt64_loop_spec s : forall n m,
  n mod 2 ^ 64 = m mod 2 ^ 64 ->
  parseInt64_loop (wrap64 n) s = wrap64 (decimal_from m (digit_prefix s)).
Proof.
  induction s as [|c s IH]; intros n m Hnm; simpl.
  - by apply wrap64_congr.
  - unfold is_digit.
    destruct ((byteZ c <? byteZ "0") || (byteZ "9" <? byteZ c)); simpl.
    + by apply wrap64_congr.
    + apply IH.
      rewrite Z.add_mod, wrap64_mod, Z.mul_mod, wrap64_mod, Hnm by lia.
      rewrite <- Z.mul_mod, <- Z.add_mod by lia. done.
Qed.

Lemma parseInt64_spec s : parseInt64 s = wrap64 (decimal (digit_prefix s)).
Proof. unfold parseInt64, decimal. apply (parseInt64_loop_spec s 0 0). done. Qed.


Lemma stripCommas_bytes s :
  list_ascii_of_string (stripCommas s) =
  List.filter (fun c => negb (Ascii.eqb c ",")) (list_ascii_of_string s).
Proof.
  unfold stripCommas. induction s as [|c s IH]; simpl; [done|].
  destruct (Ascii.eqb c ","); simpl; by rewrite ?append_nil_l, IH.
Qed.


End integer_normalizer.




(** ** The Connection Name Extractor *)
Section listing.

Lemma length_submatches r f : List.length (submatches r f) = S (NumSubexp r).
Proof. unfold submatches. simpl. by rewrite length_map, length_seq. Qed.

Lemma FindAll_length r s m :
  m ∈ FindAllStringSubmatch r s -> List.length m = S (NumSubexp r).
Proof.
  unfold FindAllStringSubmatch. intros H.
  apply list_elem_of_fmap in H as (f & -> & _). apply length_submatches.
Qed.

Lemma elem_of_collect re text n :
  NumSubexp re = 1%nat ->
  n ∈ flat_map (fun m => if (1 <? List.length m)%nat then [sub m 1] else [])
               (FindAllStringSubmatch re text) <->
  exists m, m ∈ FindAllStringSubmatch re text /\ n = sub m 1.
Proof.
  intros Hn. rewrite list_elem_of_In, in_flat_map. split.
  - intros (m & Hm & Hin). apply list_elem_of_In in Hm. exists m. split; [done|].
    rewrite (FindAll_length _ _ _ Hm), Hn in Hin. simpl in Hin. by destruct Hin.
  - intros (m & Hm & ->). exists m. split; [by apply list_elem_of_In|].
    rewrite (FindAll_length _ _ _ Hm), Hn. simpl. by left.
Qed.

Lemma elem_of_parseChildrenFromListSas text n :
  n ∈ parseChildrenFromListSas text <->
  exists re m, re ∈ fallback_patterns /\ m ∈ FindAllStringSubmatch re text /\ n = sub m 1.
Proof.
  unfold parseChildrenFromListSas, fallback_patterns.
  rewrite !elem_of_app, !elem_of_collect by reflexivity. split.
  - intros [(m & Hm & ->)|[(m & Hm & ->)|(m & Hm & ->)]].
    + exists ListSas.reBrace, m. split; [by left|done].
    + exists ListSas.reChildSa, m. split; [right; by left|done].
    + exists ListSas.reQuoted, m. split; [do 2 right; by left|done].
  - intros (re & m & Hre & Hm & ->).
    apply elem_of_cons in Hre as [->|Hre]; [left; by exists m|].
    apply elem_of_cons in Hre as [->|Hre]; [right; left; by exists m|].
    apply list_elem_of_singleton in Hre as ->. right; right; by exists m.
Qed.

Lemma uniq_fold names : forall (uniq : gset string) n,
  n ∈ fold_left (fun uniq n =>
                   let n := strings.TrimSpace n in
                   if negb (String.eqb n "") then {[ n ]} ∪ uniq else uniq) names uniq <->
  n ∈ uniq \/ (n <> "" /\ exists m, m ∈ names /\ strings.TrimSpace m = n).
Proof.
  induction names as [|m0 names IH]; intros uniq n; cbn [fold_left].
  - split; [auto|]. intros [H|(_ & m & Hm & _)]; [done|]. by apply elem_of_nil in Hm.
  - rewrite IH. cbv zeta. destruct (String.eqb_spec (strings.TrimSpace m0) "") as [E|E]; simpl.
    + split.
      * intros [H|(Hn & m & Hm & Ht)]; [by left|].
        right. split; [done|]. exists m. split; [by right|done].
      * intros [H|(Hn & m & Hm & Ht)]; [by left|].
        apply elem_of_cons in Hm as [->|Hm]; [congruence|].
        right. split; [done|]. by exists m.
    + split.
      * intros [H|(Hn & m & Hm & Ht)].
        -- apply elem_of_union in H as [H|H]; [|by left].
           apply elem_of_singleton in H as ->. right. split; [done|].
           exists m0. split; [by left|done].
        -- right. split; [done|]. exists m. split; [by right|done].
      * intros [H|(Hn & m & Hm & Ht)].
        -- left. apply elem_of_union. by right.
        -- apply elem_of_cons in Hm as [->|Hm].
           ++ left. apply elem_of_union. left. by apply elem_of_singleton.
           ++ right. split; [done|]. by exists m.
Qed.

(** The list the handler returns holds the non-empty trimmed names, in
    increasing order and once each. *)
Lemma childrenJSONHandler_spec connsOut sasOut :
  let names :=
    if (List.length (parseChildrenFromListConns connsOut) =? 0)%nat
    then parseChildrenFromListSas sasOut else parseChildrenFromListConns connsOut in
  (forall n, n ∈ childrenJSONHandler connsOut sasOut <->
             n <> "" /\ exists m, m ∈ names /\ strings.TrimSpace m = n) /\
  StronglySorted sort.string_le (childrenJSONHandler connsOut sasOut) /\
  NoDup (childrenJSONHandler connsOut sasOut).
Proof.
  intros names. unfold childrenJSONHandler. fold names. split; [|split].
  - intros n. rewrite elem_of_sort_Strings, elem_of_elements, uniq_fold.
    split; [intros [H|H]; [by apply not_elem_of_empty in H|done]|auto].
  - apply sort_Strings_sorted.
  - apply sort_Strings_NoDup, NoDup_elements.
Qed.

End listing.

(** C3, as stated, fails: with no configured connection found, the
    line [tun1: #3, reqid 1, TUNNEL, ESP:AES] of the secondary text matches
    the hash-ESP pattern of the Active Connection Extractor, which captures
    [tun1], and the listing is empty. *)
Lemma C3_counterexample :
  ~ (forall primary secondary,
       parseChildrenFromListConns primary = [] ->
       forall line n, line ∈ strings.Split secondary "010" ->
         active_capture line = Some n ->
         strings.TrimSpace n ∈ childrenJSONHandler primary secondary).
Proof.
  intros H.
  specialize (H "" "tun1: #3, reqid 1, TUNNEL, ESP:AES" eq_refl
                "tun1: #3, reqid 1, TUNNEL, ESP:AES" "tun1").
  assert (Hout : childrenJSONHandler "" "tun1: #3, reqid 1, TUNNEL, ESP:AES" = [])
    by (vm_compute; reflexivity).
  assert (Ht : strings.TrimSpace "tun1" = "tun1") by (vm_compute; reflexivity).
  rewrite Hout, Ht in H. eapply elem_of_nil, H.
  - change (strings.Split "tun1: #3, reqid 1, TUNNEL, ESP:AES" "010")
      with ["tun1: #3, reqid 1, TUNNEL, ESP:AES"]. by left.
  - vm_compute. reflexivity.
Qed.

(** C3, amended. When the three primary matchers find no name in the
    primary text, the listing is computed from the secondary text alone,
    with the three patterns of [parseChildrenFromListSas]: the brace header
    (colon and [child] prefix optional), [CHILD_SA name{n}] and the quoted
    [child 'name'], case-sensitive and matched in multi-line mode over the
    whole text, every match of each pattern contributing its group 1. The
    listing holds exactly these captures, trimmed, the empty ones dropped,
    once each and in increasing order. *)
Theorem C3_fallback_listing primary secondary :
  parseChildrenFromListConns primary = [] ->
  (forall n, n ∈ childrenJSONHandler primary secondary <->
     n <> "" /\
     exists re m, re ∈ fallback_patterns /\
       m ∈ FindAllStringSubmatch re secondary /\ n = strings.TrimSpace (sub m 1)) /\
  StronglySorted sort.string_le (childrenJSONHandler primary secondary) /\
  NoDup (childrenJSONHandler primary secondary).
Proof.
  intros Hnone. destruct (childrenJSONHandler_spec primary secondary) as (Hin & Hs & Hd).
  rewrite Hnone in Hin. simpl in Hin. split; [|by split].
  intros n. rewrite Hin. split.
  - intros (Hn & m & Hm & Ht). split; [done|].
    apply elem_of_parseChildrenFromListSas in Hm as (re & m' & Hre & Hm' & ->).
    by exists re, m'.
  - intros (Hn & re & m & Hre & Hm & ->). split; [done|].
    exists (sub m 1). split; [|done]. apply elem_of_parseChildrenFromListSas.
    by exists re, m.
Qed.

Lemma C3_witness :
  "x" ∈ childrenJSONHandler "gw: IKEv2, rekeying every 14400s" "x{1}: up" <->
  "x" <> "" /\
  exists re m, re ∈ fallback_patterns /\
    m ∈ FindAllStringSubmatch re "x{1}: up" /\ "x" = strings.TrimSpace (sub m 1).
Proof.
  refine (proj1 (C3_fallback_listing "gw: IKEv2, rekeying every 14400s" "x{1}: up" _) "x").
  vm_compute. reflexivity.
Defined.

(** ** The names of all three extractors *)

(** C4, as stated, fails: the line [child ' a b '] is a quoted header,
    whose name, white space included, becomes a key of the status mapping;
    it is outside the token pattern and is not trimmed. *)
Lemma C4_counterexample :
  ~ (forall connsOut sasOut text n,
       n ∈ childrenJSONHandler connsOut sasOut \/
       n ∈ parseActiveChildrenFromListSas text \/
       n ∈ dom (parseStatusToStats text) ->
       matches_class name_cls n /\ strings.TrimSpace n = n).
Proof.
  intros H. destruct (H "" "" "child ' a b '" " a b ") as [_ Ht].
  - right; right.
    assert (Hs : parseStatusToStats "child ' a b '" = {[ " a b " := mkChildStats true 0 0 0 0 ]})
      by (vm_compute; reflexivity).
    rewrite Hs, dom_singleton_L. by apply elem_of_singleton.
  - vm_compute in Ht. discriminate Ht.
Qed.

(** C4, amended. Every name of the configured-connections listing is
    non-empty and carries no surrounding white space. Every key of the
    status mapping and every name of the active list is non-empty and
    matches the token pattern [[A-Za-z0-9._:-]+] (for the active list, whose
    patterns are case-insensitive, the class also holds the runes U+017F
    and U+212A, which fold to s and k), unless it was captured between
    apostrophes by a quoted pattern ([child '...'], and for the active list
    also [installed CHILD_SA '...']): such a name is any non-empty run of
    characters other than the apostrophe, white space included, and is not
    trimmed. *)
Theorem C4_emitted_names :
  (forall connsOut sasOut n,
     n ∈ childrenJSONHandler connsOut sasOut ->
     n <> "" /\ strings.TrimSpace n = n) /\
  (forall text n,
     n ∈ dom (parseStatusToStats text) ->
     matches_class name_cls n \/
     (matches_class not_quote n /\
      exists line, line ∈ strings.Split text "010" /\
        MatchString Status.reHeaderQuoted line = true /\
        n = submatch Status.reHeaderQuoted line 1)) /\
  (forall text n,
     n ∈ parseActiveChildrenFromListSas text ->
     matches_class name_cls_fold n \/
     (matches_class not_quote n /\
      exists line re, line ∈ strings.Split text "010" /\
        (re = ActiveSas.reQuoted \/ re = ActiveSas.reInstalledLog) /\
        MatchString re line = true /\ n = submatch re line 1)).
Proof.
  split; [|split].
  - intros connsOut sasOut n Hn.
    apply (proj1 (childrenJSONHandler_spec connsOut sasOut)) in Hn as (Hne & m & _ & <-).
    split; [done|apply TrimSpace_idem].
  - intros text n Hn. apply elem_of_dom_parseStatus in Hn as (line & Hl & Hc).
    destruct (header_capture_class _ _ Hc) as [H|(H & Hm & Hs)]; [by left|].
    right. split; [done|]. by exists line.
  - intros text n Hn. apply elem_of_parseActive in Hn as (line & Hl & Hc).
    destruct (active_capture_class _ _ Hc) as [H|(H & re & Hre & Hm & Hs)]; [by left|].
    right. split; [done|]. by exists line, re.
Qed.

Lemma C4_witness :
  ("site-a" <> "" /\ strings.TrimSpace "site-a" = "site-a") /\
  (matches_class name_cls "tun1" \/
   (matches_class not_quote "tun1" /\
    exists line, line ∈ strings.Split scenarioA "010" /\
      MatchString Status.reHeaderQuoted line = true /\
      "tun1" = submatch Status.reHeaderQuoted line 1)).
Proof.
  split.
  - apply (proj1 C4_emitted_names "  site-a: TUNNEL, IPsec" "" "site-a").
    assert (Hl : childrenJSONHandler "  site-a: TUNNEL, IPsec" "" = ["site-a"])
      by (vm_compute; reflexivity).
    rewrite Hl. by left.
  - apply (proj1 (proj2 C4_emitted_names) scenarioA "tun1").
    assert (Hs : parseStatusToStats scenarioA = {[ "tun1" := mkChildStats true 1000 2000 10 20 ]})
      by (vm_compute; reflexivity).
    rewrite Hs, dom_singleton_L. by apply elem_of_singleton.
Defined.

(** * Further properties *)

(** ** Lists in increasing order *)
Section sorted_sets.

#[local] Instance string_le_antisymm : AntiSymm (=) sort.string_le.
Proof. intros s1 s2. apply string_le_antisym. Qed.

(** Two duplicate-free lists in increasing order with the same elements
    are the same list. *)
Lemma sorted_set_unique l1 l2 :
  StronglySorted sort.string_le l1 -> StronglySorted sort.string_le l2 ->
  NoDup l1 -> NoDup l2 -> (forall x, x ∈ l1 <-> x ∈ l2) -> l1 = l2.
Proof.
  intros Hs1 Hs2 Hd1 Hd2 Hin. apply (StronglySorted_unique sort.string_le); [done|done|].
  by apply NoDup_Permutation.
Qed.

Lemma parseActive_sorted text :
  StronglySorted sort.string_le (parseActiveChildrenFromListSas text) /\
  NoDup (parseActiveChildrenFromListSas text).
Proof.
  unfold parseActiveChildrenFromListSas. split.
  - apply sort_Strings_sorted.
  - apply sort_Strings_NoDup, NoDup_elements.
Qed.

Lemma Split_append s1 s2 sep :
  strings.Split (s1 +:+ String sep s2) sep = strings.Split s1 sep ++ strings.Split s2 sep.
Proof.
  induction s1 as [|c s1 IH].
  - rewrite append_nil_l. simpl. by rewrite Ascii.eqb_refl.
  - rewrite append_cons. cbn [strings.Split]. rewrite IH.
    destruct (Ascii.eqb c sep); [done|].
    destruct (strings.Split s1 sep) as [|l ls] eqn:E; [|done].
    by destruct s1; simpl in E; try destruct (Ascii.eqb _ _); try destruct (strings.Split _ _).
Qed.

End sorted_sets.

(** ** The active list as a set of the lines *)

(** X1. The active list is in increasing order (byte-wise) and holds no
    name twice, for every text. *)
Theorem X1_active_list_sorted_nodup text :
  StronglySorted sort.string_le (parseActiveChildrenFromListSas text) /\
  NoDup (parseActiveChildrenFromListSas text).
Proof. apply parseActive_sorted. Qed.

(** X2. The active list depends on the set of lines only: two texts
    with the same lines, in any order and any number of times, give the
    same list. *)
Theorem X2_active_list_line_order text1 text2 :
  (forall line, line ∈ strings.Split text1 "010" <-> line ∈ strings.Split text2 "010") ->
  parseActiveChildrenFromListSas text1 = parseActiveChildrenFromListSas text2.
Proof.
  intros Hlines.
  destruct (parseActive_sorted text1) as [Hs1 Hd1], (parseActive_sorted text2) as [Hs2 Hd2].
  apply sorted_set_unique; try done.
  intros n. rewrite !elem_of_parseActive.
  split; intros (line & Hl & Hc); exists line; (split; [by apply Hlines|done]).
Qed.

Lemma X2_witness :
  parseActiveChildrenFromListSas ("b{1}:" +:+ String "010" "a{2}:") =
  parseActiveChildrenFromListSas
    ("a{2}:" +:+ String "010" ("b{1}:" +:+ String "010" "a{2}:")).
Proof.
  apply X2_active_list_line_order. intros line.
  change (strings.Split ("b{1}:" +:+ String "010" "a{2}:") "010") with ["b{1}:"; "a{2}:"].
  change (strings.Split ("a{2}:" +:+ String "010" ("b{1}:" +:+ String "010" "a{2}:")) "010")
    with ["a{2}:"; "b{1}:"; "a{2}:"].
  rewrite !elem_of_cons, !elem_of_nil. tauto.
Defined.

(** X3. The active list of two texts joined by a line feed holds
    exactly the names of the active lists of the two texts. *)
Theorem X3_active_list_of_joined_texts text1 text2 n :
  n ∈ parseActiveChildrenFromListSas (text1 +:+ String "010" text2) <->
  n ∈ parseActiveChildrenFromListSas text1 \/ n ∈ parseActiveChildrenFromListSas text2.
Proof.
  rewrite !elem_of_parseActive, Split_append. split.
  - intros (line & Hl & Hc). apply elem_of_app in Hl as [Hl|Hl]; [left|right]; by exists line.
  - intros [(line & Hl & Hc)|(line & Hl & Hc)]; exists line;
      (split; [apply elem_of_app; auto|done]).
Qed.

(** ** The status mapping over joined texts *)
Section status_frames.

Lemma status_run_app ls1 ls2 :
  status_run (ls1 ++ ls2) = fold_left status_line ls2 (status_run ls1).
Proof. unfold status_run. apply fold_left_app. Qed.

(** Lines that are no header for [n], read while another name is
    current, leave the record of [n] alone. *)
Lemma status_fold_frame n ls : forall stats current,
  current <> n ->
  Forall (fun line => header_capture line <> Some n) ls ->
  fst (fold_left status_line ls (stats, current)) !! n = stats !! n.
Proof.
  induction ls as [|l ls IH]; intros stats current Hcur Hls; [done|].
  apply Forall_cons in Hls as [Hl Hls]. cbn [fold_left].
  destruct (header_capture l) as [m|] eqn:Hh.
  - rewrite (status_line_header _ _ _ _ Hh).
    assert (m <> n) by congruence.
    rewrite IH by done. rewrite lookup_set_active. by rewrite decide_False.
  - destruct (status_line_other stats current l Hh)
      as (stats' & -> & [->|(Hne & Hc & re & [->| ->])]).
    + by apply IH.
    + rewrite IH by done. unfold set_in. by rewrite lookup_insert_ne.
    + rewrite IH by done. unfold set_out. by rewrite lookup_insert_ne.
Qed.

End status_frames.

(** X4. The keys of the status mapping of two texts joined by a line
    feed are the keys of the two mappings together. *)
Theorem X4_status_keys_of_joined_texts text1 text2 :
  dom (parseStatusToStats (text1 +:+ String "010" text2)) =
  dom (parseStatusToStats text1) ∪ dom (parseStatusToStats text2).
Proof.
  apply set_eq. intros n.
  rewrite elem_of_union, !elem_of_dom_parseStatus, Split_append. split.
  - intros (line & Hl & Hc). apply elem_of_app in Hl as [Hl|Hl]; [left|right]; by exists line.
  - intros [(line & Hl & Hc)|(line & Hl & Hc)]; exists line;
      (split; [apply elem_of_app; auto|done]).
Qed.

(** X5. Counter lines are attributed to the current connection only:
    when a text is followed by further lines none of which is a header for
    [n], and [n] is not the connection current at the end of the text, the
    record of [n] (or its absence) is what the text alone gives. *)
Theorem X5_record_untouched_by_other_sections text1 text2 n :
  snd (status_run (strings.Split text1 "010")) <> n ->
  Forall (fun line => header_capture line <> Some n) (strings.Split text2 "010") ->
  parseStatusToStats (text1 +:+ String "010" text2) !! n = parseStatusToStats text1 !! n.
Proof.
  intros Hcur Hls. unfold parseStatusToStats. rewrite Split_append.
  change (fold_left status_line (strings.Split text1 "010" ++ strings.Split text2 "010") (∅, ""))
    with (status_run (strings.Split text1 "010" ++ strings.Split text2 "010")).
  rewrite status_run_app.
  change (fold_left status_line (strings.Split text1 "010") (∅, ""))
    with (status_run (strings.Split text1 "010")).
  destruct (status_run (strings.Split text1 "010")) as [stats current] eqn:E.
  by apply status_fold_frame.
Qed.

(** ** Counter lines *)
Section counter_lines.

(** What a line that is no header does when a connection is current:
    the first counter case that matches it, in the order of the [switch],
    writes the record of the current connection. *)
Lemma status_line_counter stats current line :
  header_capture line = None -> current <> "" ->
  status_line (stats, current) line =
  match counter_case line with
  | Some (true, re) => (set_in re line stats current, current)
  | Some (false, re) => (set_out re line stats current, current)
  | None => (stats, current)
  end.
Proof.
  intros H Hcur. apply first_match_None in H. unfold header_patterns in H.
  repeat match goal with
  | H : Forall _ (_ :: _) |- _ => apply Forall_cons in H as [? H]
  end.
  unfold status_line.
  repeat match goal with
  | H : MatchString ?re line = false |- _ => rewrite H; clear H
  end.
  apply String.eqb_neq in Hcur. rewrite Hcur.
  unfold counter_case, counter_cases, first_case.
  repeat match goal with
  | |- context [if MatchString ?re line then _ else _] =>
      destruct (MatchString re line); [reflexivity|]
  end.
  reflexivity.
Qed.

Lemma stats_get_insert stats k r : stats_get (<[k:=r]> stats) k = r.
Proof. unfold stats_get. by rewrite lookup_insert_eq. Qed.

End counter_lines.

(** X6. A counter line read while a connection is current writes the
    byte and packet counts of its direction into the record of that
    connection, as parsed from the groups 1 and 2 of the first counter case
    matching the line; the counts of the other direction and the active
    flag stay as they were (those of the zero record if the connection had
    none), the other records and the current connection do not change. *)
Theorem X6_counter_line_writes_one_direction stats current line dir re :
  header_capture line = None -> current <> "" ->
  counter_case line = Some (dir, re) ->
  exists stats',
    status_line (stats, current) line = (stats', current) /\
    (forall k, k <> current -> stats' !! k = stats !! k) /\
    exists r, stats' !! current = Some r /\
      Active r = Active (stats_get stats current) /\
      let bytes := parseInt64 (stripCommas (submatch re line 1)) in
      let pkts := parseInt64 (stripCommas (submatch re line 2)) in
      if dir
      then InBytes r = bytes /\ InPkts r = pkts /\
           OutBytes r = OutBytes (stats_get stats current) /\
           OutPkts r = OutPkts (stats_get stats current)
      else OutBytes r = bytes /\ OutPkts r = pkts /\
           InBytes r = InBytes (stats_get stats current) /\
           InPkts r = InPkts (stats_get stats current).
Proof.
  intros Hh Hcur Hc. rewrite (status_line_counter _ _ _ Hh Hcur), Hc.
  destruct dir; eexists; (split; [reflexivity|]); unfold set_in, set_out;
    (split; [intros k Hk; by rewrite lookup_insert_ne|]);
    eexists; (split; [apply lookup_insert_eq|]); simpl; auto.
Qed.

Lemma X6_witness :
  exists stats',
    status_line ({[ "tun1" := mkChildStats true 1 2 3 4 ]}, "tun1")
                "  out: 2,048 bytes, 16 packets" = (stats', "tun1") /\
    stats' !! "tun1" = Some (mkChildStats true 1 2048 3 16).
Proof.
  destruct (X6_counter_line_writes_one_direction
              {[ "tun1" := mkChildStats true 1 2 3 4 ]} "tun1"
              "  out: 2,048 bytes, 16 packets" false Status.reOutPrimary)
    as (stats' & Hstep & _ & r & Hr & Hact & Hob & Hop & Hib & Hip).
  - vm_compute. reflexivity.
  - discriminate.
  - vm_compute. reflexivity.
  - exists stats'. split; [exact Hstep|]. rewrite Hr. f_equal.
    destruct r as [a ib ob ip op]. simpl in *. subst.
    vm_compute. reflexivity.
Defined.

(** X7. Of two consecutive counter lines of the same direction only the
    second counts: reading both gives the state that reading the second
    alone gives. *)
Theorem X7_last_counter_line_wins stats current line1 line2 dir re1 re2 :
  header_capture line1 = None -> header_capture line2 = None -> current <> "" ->
  counter_case line1 = Some (dir, re1) -> counter_case line2 = Some (dir, re2) ->
  status_line (status_line (stats, current) line1) line2 =
  status_line (stats, current) line2.
Proof.
  intros Hh1 Hh2 Hcur Hc1 Hc2.
  rewrite (status_line_counter _ _ _ Hh1 Hcur), Hc1.
  destruct dir; rewrite !(status_line_counter _ _ _ Hh2 Hcur), Hc2; f_equal;
    unfold set_in, set_out; rewrite stats_get_insert, insert_insert_eq; done.
Qed.

Lemma X7_witness :
  status_line (status_line (∅, "t") "in: 1 bytes, 2 packets") "in  0xc1, 5 bytes, 6 packets" =
  status_line (∅, "t") "in  0xc1, 5 bytes, 6 packets".
Proof.
  apply (X7_last_counter_line_wins ∅ "t" "in: 1 bytes, 2 packets"
           "in  0xc1, 5 bytes, 6 packets" true Status.reInPrimary Status.reInSPI);
    try (vm_compute; reflexivity). discriminate.
Defined.

(** X8. An inbound and an outbound counter line can be read in either
    order: the resulting state is the same. *)
Theorem X8_in_and_out_lines_commute stats current line1 line2 re1 re2 :
  header_capture line1 = None -> header_capture line2 = None -> current <> "" ->
  counter_case line1 = Some (true, re1) -> counter_case line2 = Some (false, re2) ->
  status_line (status_line (stats, current) line1) line2 =
  status_line (status_line (stats, current) line2) line1.
Proof.
  intros Hh1 Hh2 Hcur Hc1 Hc2.
  rewrite (status_line_counter _ _ _ Hh1 Hcur), Hc1.
  rewrite (status_line_counter _ _ _ Hh2 Hcur), Hc2.
  rewrite (status_line_counter _ _ _ Hh2 Hcur), Hc2.
  rewrite (status_line_counter _ _ _ Hh1 Hcur), Hc1. f_equal.
  unfold set_in, set_out. rewrite !stats_get_insert, !insert_insert_eq. done.
Qed.

Lemma X8_witness :
  status_line (status_line (∅, "t") "in: 1 bytes, 2 packets") "out: 3 bytes, 4 packets" =
  status_line (status_line (∅, "t") "out: 3 bytes, 4 packets") "in: 1 bytes, 2 packets".
Proof.
  apply (X8_in_and_out_lines_commute ∅ "t" "in: 1 bytes, 2 packets"
           "out: 3 bytes, 4 packets" Status.reInPrimary Status.reOutPrimary);
    try (vm_compute; reflexivity). discriminate.
Defined.

Lemma X5_witness :
  parseStatusToStats
    (("a{1}:" +:+ String "010" ("in: 5 bytes, 1 packets" +:+ String "010" "b{1}:"))
     +:+ String "010" "in: 7 bytes, 2 packets") !! "a" =
  parseStatusToStats
    ("a{1}:" +:+ String "010" ("in: 5 bytes, 1 packets" +:+ String "010" "b{1}:")) !! "a".
Proof.
  apply X5_record_untouched_by_other_sections.
  - vm_compute. discriminate.
  - change (strings.Split "in: 7 bytes, 2 packets" "010") with ["in: 7 bytes, 2 packets"].
    apply Forall_cons_2; [vm_compute; discriminate|apply Forall_nil_2].
Defined.

(** ** [parseInt64] within the range of [int64] *)
Section parse_bounds.
Local Open Scope Z_scope.

Lemma wrap64_range z : - 2 ^ 63 <= wrap64 z < 2 ^ 63.
Proof. unfold wrap64. pose proof (Z.mod_pos_bound (z + 2 ^ 63) (2 ^ 64)). lia. Qed.

Lemma digit_prefix_digits s :
  Forall (fun c => is_digit c = true) (list_ascii_of_string (digit_prefix s)).
Proof.
  induction s as [|c s IH]; simpl; [constructor|].
  destruct (is_digit c) eqn:E; simpl; [by constructor|constructor].
Qed.

Lemma is_digit_range c : is_digit c = true -> 0 <= byteZ c - byteZ "0" <= 9.
Proof.
  unfold is_digit. intros H. apply negb_true_iff, orb_false_iff in H as [H1 H2].
  apply Z.ltb_ge in H1, H2. change (byteZ "0") with 48 in *. change (byteZ "9") with 57 in *.
  lia.
Qed.

(** The number a string of [k] digits denotes is below [10^k]. *)
Lemma decimal_from_bound s : forall acc,
  0 <= acc ->
  Forall (fun c => is_digit c = true) (list_ascii_of_string s) ->
  acc * 10 ^ Z.of_nat (String.length s) <= decimal_from acc s
    < (acc + 1) * 10 ^ Z.of_nat (String.length s).
Proof.
  induction s as [|c s IH]; intros acc Hacc Hall.
  - simpl. lia.
  - cbn [list_ascii_of_string] in Hall. apply Forall_cons in Hall as [Hc Hall].
    apply is_digit_range in Hc.
    cbn [decimal_from String.length]. rewrite Nat2Z.inj_succ, Z.pow_succ_r by lia.
    specialize (IH (acc * 10 + (byteZ c - byteZ "0")) ltac:(lia) Hall).
    assert (0 < 10 ^ Z.of_nat (String.length s)) by (apply Z.pow_pos_nonneg; lia).
    nia.
Qed.

Lemma parseInt64_exact s :
  (String.length (digit_prefix s) <= 18)%nat ->
  parseInt64 s = decimal (digit_prefix s) /\ 0 <= parseInt64 s < 10 ^ 18.
Proof.
  intros Hlen. rewrite parseInt64_spec.
  pose proof (decimal_from_bound (digit_prefix s) 0 ltac:(lia) (digit_prefix_digits s)) as Hb.
  fold (decimal (digit_prefix s)) in Hb.
  assert (10 ^ Z.of_nat (String.length (digit_prefix s)) <= 10 ^ 18)
    by (apply Z.pow_le_mono_r; lia).
  rewrite wrap64_small; lia.
Qed.

End parse_bounds.

(** X9. [parseInt64] always returns a value of the [int64] range, and
    for a string with at most 18 leading digits it returns exactly the
    number these digits denote, which is then below 10^18: no count of up
    to 18 digits is altered by overflow. *)
Theorem X9_parseInt64_exact_up_to_18_digits s :
  (- 2 ^ 63 <= parseInt64 s < 2 ^ 63)%Z /\
  ((String.length (digit_prefix s) <= 18)%nat ->
   parseInt64 s = decimal (digit_prefix s) /\ (0 <= parseInt64 s < 10 ^ 18)%Z).
Proof.
  split; [rewrite parseInt64_spec; apply wrap64_range|apply parseInt64_exact].
Qed.

Lemma X9_witness :
  parseInt64 "999999999999999999 bytes" = 999999999999999999%Z /\
  (0 <= parseInt64 "999999999999999999 bytes" < 10 ^ 18)%Z.
Proof.
  refine (proj2 (X9_parseInt64_exact_up_to_18_digits "999999999999999999 bytes") _).
  vm_compute. lia.
Defined.

(** ** Groups other than the first, and all matches of a pattern *)
Section groups.

Lemma cap_get_cons i j s cs :
  cap_get i ((j, s) :: cs) = if Nat.eqb j i then s else cap_get i cs.
Proof. unfold cap_get. simpl. by destruct (Nat.eqb j i). Qed.

Lemma matches_no_group i r c cs c' cs' :
  matches r c cs c' cs' -> no_group i r = true -> cap_get i cs' = cap_get i cs.
Proof.
  induction 1 as [c cs|p it bef aft cs Hp|r1 r2 c cs c1 cs1 c2 cs2 _ IH1 _ IH2
                   |r1 r2 c cs c' cs' _ IH|r1 r2 c cs c' cs' _ IH|g p its bef aft cs Hall
                   |j r c cs c' cs' _ IH|ml c cs Hb|c cs He|c cs Hw]; simpl; intros Hn;
    try done.
  - apply andb_true_iff in Hn as [Hn1 Hn2]. by rewrite IH2, IH1.
  - apply andb_true_iff in Hn as [Hn1 Hn2]. auto.
  - apply andb_true_iff in Hn as [Hn1 Hn2]. auto.
  - apply andb_true_iff in Hn as [Hn1 Hn2]. apply negb_true_iff in Hn1.
    rewrite cap_get_cons, Hn1. auto.
Qed.

Lemma matches_sets_group i p r c cs c' cs' :
  sets_group i p r -> matches r c cs c' cs' ->
  exists its pre post,
    cap_get i cs' = join its /\ its <> [] /\
    Forall (fun it => p (rune it) = true) its /\
    input c = pre ++ its ++ post.
Proof.
  intros Hs. revert c cs c' cs'.
  induction Hs as [g|r1 r2 Hs IH Hn|r1 r2 Hn Hs IH]; intros c cs c' cs' Hm.
  - inversion Hm as [| | | | | |j r c0 cs0 c0' cs0' Hm'| | |]; subst.
    apply matches_Plus in Hm' as (its & Hne & Hall & Ha & Hb).
    exists its, (rev (before c)), (after c').
    rewrite cap_get_cons, Nat.eqb_refl, (consumed_advance _ _ _ Hb).
    unfold input. by rewrite Ha.
  - inversion Hm as [| |r1' r2' c0 cs0 c1 cs1 c2 cs2 Hm1 Hm2| | | | | | |]; subst.
    apply (IH _ _ _ _) in Hm1 as (its & pre & post & Hcap & Hne & Hall & Hin).
    rewrite (matches_no_group _ _ _ _ _ _ Hm2 Hn). by exists its, pre, post.
  - inversion Hm as [| |r1' r2' c0 cs0 c1 cs1 c2 cs2 Hm1 Hm2| | | | | | |]; subst.
    apply (IH _ _ _ _) in Hm2 as (its & pre & post & Hcap & Hne & Hall & Hin).
    rewrite (matches_input _ _ _ _ _ Hm1) in Hin. by exists its, pre, post.
Qed.

Lemma sets_group_NumSubexp i p r : sets_group i p r -> (i <= NumSubexp r)%nat.
Proof. induction 1; simpl; lia. Qed.

Lemma sub_submatches r f i :
  (1 <= i <= NumSubexp r)%nat -> sub (submatches r f) i = cap_get i (m_caps f).
Proof.
  intros Hi. unfold sub, submatches. destruct i as [|i]; [lia|]. cbn [nth].
  rewrite (nth_indep _ "" (cap_get 0 (m_caps f)))
    by (rewrite length_map, length_seq; lia).
  rewrite (map_nth (fun i => cap_get i (m_caps f))), seq_nth by lia. done.
Qed.

(** A group that a pattern sets once as [(p+)] holds, after a match, a
    non-empty string of the class [p]. *)
Lemma found_group_class i p re f s :
  sets_group i p re -> (1 <= i)%nat ->
  exec re accept (m_start f) [] = Some (m_end f, m_caps f) ->
  input (m_start f) = runes s ->
  matches_class p (sub (submatches re f) i).
Proof.
  intros Hs Hi He Hin.
  apply exec_sound in He as (c' & cs' & Hmt & Hacc). injection Hacc as -> ->.
  destruct (matches_sets_group _ _ _ _ _ _ _ Hs Hmt)
    as (its & pre & post & Hcap & Hne & Hall & Hinp).
  rewrite sub_submatches by (pose proof (sets_group_NumSubexp _ _ _ Hs); lia).
  rewrite Hcap. rewrite Hin in Hinp. apply decoded_infix in Hinp.
  split; [by apply join_nonempty|by rewrite Hinp].
Qed.

Lemma submatch_group_class i p re line :
  sets_group i p re -> (1 <= i)%nat -> MatchString re line = true ->
  matches_class p (submatch re line i).
Proof.
  intros Hs Hi Hm. unfold MatchString in Hm. unfold submatch, FindStringSubmatch.
  destruct (search re [] (runes line)) as [f|] eqn:E; [|done]. simpl.
  apply search_sound in E as [He Hin]. by apply (found_group_class i p re f line).
Qed.

(** Every match [find_all] returns is a match of the pattern somewhere in
    the input. *)
Lemma find_all_sound r f : forall aft skip adj bef,
  f ∈ find_all r skip adj bef aft ->
  exec r accept (m_start f) [] = Some (m_end f, m_caps f) /\
  input (m_start f) = rev bef ++ aft.
Proof.
  induction aft as [|it aft IH]; intros skip adj bef Hf.
  - destruct skip as [|n]; cbn [find_all] in Hf; [|by apply elem_of_nil in Hf].
    destruct (exec r accept (Cur bef []) []) as [[c' cs]|] eqn:E;
      [|by apply elem_of_nil in Hf].
    destruct (List.length (before c') - List.length bef)%nat.
    + rewrite app_nil_r in Hf. destruct adj; [by apply elem_of_nil in Hf|].
      apply list_elem_of_singleton in Hf as ->. by split.
    + apply list_elem_of_singleton in Hf as ->. by split.
  - assert (Hrec : forall n a, f ∈ find_all r n a (it :: bef) aft ->
               exec r accept (m_start f) [] = Some (m_end f, m_caps f) /\
               input (m_start f) = rev bef ++ it :: aft).
    { intros n a H. apply IH in H as [He Hin]. split; [done|].
      rewrite Hin. simpl. by rewrite <- app_assoc. }
    destruct skip as [|n]; cbn [find_all] in Hf; [|by eapply Hrec].
    destruct (exec r accept (Cur bef (it :: aft)) []) as [[c' cs]|] eqn:E;
      [|by eapply Hrec].
    destruct (List.length (before c') - List.length bef)%nat.
    + apply elem_of_app in Hf as [Hf|Hf]; [|by eapply Hrec].
      destruct adj; [by apply elem_of_nil in Hf|].
      apply list_elem_of_singleton in Hf as ->. by split.
    + apply elem_of_cons in Hf as [->|Hf]; [by split|by eapply Hrec].
Qed.

Lemma FindAll_group_class i p re text m :
  sets_group i p re -> (1 <= i)%nat ->
  m ∈ FindAllStringSubmatch re text -> matches_class p (sub m i).
Proof.
  intros Hs Hi Hm. unfold FindAllStringSubmatch in Hm.
  apply list_elem_of_fmap in Hm as (f & -> & Hf).
  apply find_all_sound in Hf as [He Hin]. by apply (found_group_class i p re f text).
Qed.

End groups.

(** ** Runes below 128 are single bytes *)
Section ascii_runes.
Local Open Scope Z_scope.

Lemma byteZ_nonneg c : 0 <= byteZ c.
Proof. unfold byteZ. lia. Qed.

Lemma lor_ge a b k : 0 <= a -> 0 <= b -> k <= a \/ k <= b -> k <= Z.lor a b.
Proof.
  intros Ha Hb Hk.
  pose proof (Z.sub_lor_l_same_l b a) as H1. pose proof (Z.sub_lor_l_same_l a b) as H2.
  rewrite (Z.lor_comm b a) in H2.
  assert (0 <= Z.land b (Z.lnot a)) by (apply Z.land_nonneg; auto).
  assert (0 <= Z.land a (Z.lnot b)) by (apply Z.land_nonneg; auto).
  lia.
Qed.

Lemma land_low a n : 0 <= n -> Z.land a (2 ^ n - 1) = a mod 2 ^ n.
Proof. intros Hn. rewrite <- Z.land_ones by done. f_equal. rewrite Z.ones_equiv. lia. Qed.

Lemma first_spec s0 sz lo hi :
  first s0 = Some (sz, lo, hi) ->
  128 <= lo /\ hi <= 191 /\
  ((sz = 2%nat /\ 194 <= s0 <= 223) \/
   (sz = 3%nat /\ 224 <= s0 <= 239 /\ (s0 = 224 -> lo = 160)) \/
   (sz = 4%nat /\ 240 <= s0 <= 244 /\ (s0 = 240 -> lo = 144))).
Proof.
  unfold first.
  repeat match goal with
  | |- context [if ?b then _ else _] => destruct b eqn:?
  end; intros [= <- <- <-] || discriminate;
  repeat match goal with
  | H : (_ <? _) = _ |- _ => first [apply Z.ltb_lt in H | apply Z.ltb_ge in H]
  | H : (_ <=? _) = _ |- _ => first [apply Z.leb_le in H | apply Z.leb_gt in H]
  | H : (_ =? _) = _ |- _ => first [apply Z.eqb_eq in H | apply Z.eqb_neq in H]
  end; lia.
Qed.

(** A decoded rune is not negative, and it is below 128 only when it is
    the single byte it was decoded from. *)
Lemma Decode_ascii c s r w :
  DecodeRuneInString (String c s) = (r, w) ->
  0 <= r /\ (r < 128 -> r = byteZ c /\ w = 1%nat).
Proof.
  pose proof (byteZ_nonneg c) as Hc0.
  unfold DecodeRuneInString.
  destruct (byteZ c <? RuneSelf) eqn:E0; [intros [= <- <-]; auto|].
  apply Z.ltb_ge in E0. unfold RuneSelf in E0.
  assert (Herr : 0 <= RuneError /\ (RuneError < 128 -> RuneError = byteZ c /\ 1%nat = 1%nat))
    by (unfold RuneError; split; lia).
  destruct (first (byteZ c)) as [[[sz lo] hi]|] eqn:Hf; [|by intros [= <- <-]].
  apply first_spec in Hf as (Hlo & Hhi & Hsz).
  destruct (String.length (String c s) <? sz)%nat; [by intros [= <- <-]|].
  destruct s as [|c1 s]; [by intros [= <- <-]|].
  pose proof (byteZ_nonneg c1) as Hc1.
  destruct (_ || _) eqn:E1; [by intros [= <- <-]|].
  apply orb_false_iff in E1 as [E1a E1b]. apply Z.ltb_ge in E1a, E1b.
  change 31 with (2 ^ 5 - 1). change 63 with (2 ^ 6 - 1).
  change 15 with (2 ^ 4 - 1). change 7 with (2 ^ 3 - 1).
  rewrite !land_low, !Z.shiftl_mul_pow2 by lia.
  assert (H1 : 0 <= byteZ c1 mod 2 ^ 6) by (apply Z.mod_pos_bound; lia).
  destruct (sz <=? 2)%nat eqn:E2.
  { intros [= <- <-]. apply Nat.leb_le in E2.
    assert (128 <= Z.lor (byteZ c mod 2 ^ 5 * 2 ^ 6) (byteZ c1 mod 2 ^ 6)).
    { apply lor_ge; [|done|left]; Z.div_mod_to_equations; lia. }
    split; [|lia]. apply Z.lor_nonneg. split; [|done]. Z.div_mod_to_equations; lia. }
  apply Nat.leb_gt in E2.
  destruct s as [|c2 s]; [by intros [= <- <-]|].
  rewrite ?land_low, ?Z.shiftl_mul_pow2 by lia.
  pose proof (byteZ_nonneg c2) as Hc2.
  assert (H2 : 0 <= byteZ c2 mod 2 ^ 6) by (apply Z.mod_pos_bound; lia).
  destruct (negb _); [by intros [= <- <-]|].
  destruct (sz <=? 3)%nat eqn:E3.
  { intros [= <- <-]. apply Nat.leb_le in E3.
    assert (128 <= Z.lor (Z.lor (byteZ c mod 2 ^ 4 * 2 ^ 12) (byteZ c1 mod 2 ^ 6 * 2 ^ 6))
                         (byteZ c2 mod 2 ^ 6)).
    { apply lor_ge; [| |left].
      - apply Z.lor_nonneg. split; Z.div_mod_to_equations; lia.
      - done.
      - apply lor_ge; [Z.div_mod_to_equations; lia..|].
        destruct (Z.eq_dec (byteZ c) 224); [right|left]; Z.div_mod_to_equations; lia. }
    split; lia. }
  apply Nat.leb_gt in E3.
  destruct s as [|c3 s]; [by intros [= <- <-]|].
  rewrite ?land_low, ?Z.shiftl_mul_pow2 by lia.
  pose proof (byteZ_nonneg c3) as Hc3.
  assert (H3 : 0 <= byteZ c3 mod 2 ^ 6) by (apply Z.mod_pos_bound; lia).
  destruct (negb _); [by intros [= <- <-]|].
  intros [= <- <-].
  assert (128 <= Z.lor (Z.lor (Z.lor (byteZ c mod 2 ^ 3 * 2 ^ 18) (byteZ c1 mod 2 ^ 6 * 2 ^ 12))
                              (byteZ c2 mod 2 ^ 6 * 2 ^ 6)) (byteZ c3 mod 2 ^ 6)).
  { apply lor_ge; [| |left].
    - repeat (apply Z.lor_nonneg; split); Z.div_mod_to_equations; lia.
    - done.
    - apply lor_ge; [| |left].
      + apply Z.lor_nonneg; split; Z.div_mod_to_equations; lia.
      + Z.div_mod_to_equations; lia.
      + apply lor_ge; [Z.div_mod_to_equations; lia..|].
        destruct (Z.eq_dec (byteZ c) 240); [right|left]; Z.div_mod_to_equations; lia. }
  split; lia.
Qed.

End ascii_runes.

Section class_strings.
Local Open Scope Z_scope.

Lemma runes_items_len k : forall s, (String.length s <= k)%nat ->
  Forall (fun it => 0 <= rune it /\
            (rune it < 128 -> exists c, src it = String c "" /\ byteZ c = rune it))
         (runes s).
Proof.
  induction k as [|k IH]; intros [|c s] Hlen; simpl in Hlen; try lia;
    try (by constructor).
  destruct (runes_cons c s) as (r & w & Hd & Hw & ->).
  apply Decode_ascii in Hd as [Hr Hlt]. constructor.
  - cbn [rune src]. split; [done|]. intros Hr128. destruct (Hlt Hr128) as [-> ->].
    exists c. split; [|done]. by destruct s.
  - apply IH. rewrite sdrop_length by (simpl; lia). simpl. lia.
Qed.

Lemma runes_items s :
  Forall (fun it => 0 <= rune it /\
            (rune it < 128 -> exists c, src it = String c "" /\ byteZ c = rune it))
         (runes s).
Proof. by apply (runes_items_len (String.length s)). Qed.

Lemma list_ascii_append a : forall b,
  list_ascii_of_string (a +:+ b) = list_ascii_of_string a ++ list_ascii_of_string b.
Proof.
  induction a as [|c a IH]; intros b; [done|].
  rewrite append_cons. simpl. by rewrite IH.
Qed.

(** A string that matches [p+], for a class [p] of runes below 128, is
    made of bytes of the class. *)
Lemma class_bytes p n :
  (forall r, p r = true -> r < 128) ->
  matches_class p n ->
  n <> "" /\ Forall (fun c => p (byteZ c) = true) (list_ascii_of_string n).
Proof.
  intros Hp [Hne Hall]. split; [done|].
  rewrite <- (join_runes n). pose proof (runes_items n) as Hit.
  induction (runes n) as [|it l IH]; [constructor|].
  apply Forall_cons in Hall as [Hpi Hall]. apply Forall_cons in Hit as [[_ Hi] Hit].
  rewrite join_cons, list_ascii_append.
  destruct (Hi (Hp _ Hpi)) as (c & -> & Hc). simpl.
  constructor; [by rewrite Hc|auto].
Qed.

Ltac eval_bytes :=
  repeat match goal with
  | H : context [byteZ (Ascii ?a ?b ?c ?d ?e ?f ?g ?h)] |- _ =>
      let v := eval vm_compute in (byteZ (Ascii a b c d e f g h)) in
      change (byteZ (Ascii a b c d e f g h)) with v in H
  end.

Lemma name_cls_ascii r : name_cls r = true -> r < 128.
Proof.
  unfold name_cls, in_range, ch. intros H.
  repeat (apply orb_true_iff in H as [H|H]);
    repeat (apply andb_true_iff in H as [? H]);
    repeat match goal with
    | H : (_ <=? _) = true |- _ => apply Z.leb_le in H
    | H : (_ =? _) = true |- _ => apply Z.eqb_eq in H
    end; eval_bytes; lia.
Qed.

Lemma digit_comma_ascii r : digit_comma r = true -> r < 128.
Proof.
  unfold digit_comma, digit, in_range, ch. intros H.
  repeat (apply orb_true_iff in H as [H|H]);
    repeat (apply andb_true_iff in H as [? H]);
    repeat match goal with
    | H : (_ <=? _) = true |- _ => apply Z.leb_le in H
    | H : (_ =? _) = true |- _ => apply Z.eqb_eq in H
    end; eval_bytes; lia.
Qed.

Lemma name_cls_fold_not_space r : name_cls_fold r = true -> unicode.IsSpace r = false.
Proof.
  unfold name_cls_fold, name_cls, in_range, ch. intros H.
  assert (Hr : 45 <= r <= 122 \/ r = 383 \/ r = 8490).
  { repeat (apply orb_true_iff in H as [H|H]);
      repeat (apply andb_true_iff in H as [? H]);
      repeat match goal with
      | H : (_ <=? _) = true |- _ => apply Z.leb_le in H
      | H : (_ =? _) = true |- _ => apply Z.eqb_eq in H
      end; eval_bytes; lia. }
  unfold unicode.IsSpace.
  repeat (apply orb_false_iff; split); try (apply Z.eqb_neq; lia).
  destruct (Z.leb_spec 8192 r), (Z.leb_spec r 8202); simpl; try done; lia.
Qed.

Lemma name_cls_not_space r : name_cls r = true -> unicode.IsSpace r = false.
Proof.
  intros H. apply name_cls_fold_not_space. unfold name_cls_fold. by rewrite H.
Qed.

(** Trimming changes nothing in a string whose runes are not white
    space. *)
Lemma TrimSpace_class p n :
  (forall r, p r = true -> unicode.IsSpace r = false) ->
  matches_class p n -> strings.TrimSpace n = n.
Proof.
  intros Hp [_ Hall]. unfold strings.TrimSpace.
  assert (Hfix : forall l, Forall (fun it => p (rune it) = true) l ->
                           strings.drop_spaces l = l).
  { intros l Hl. apply drop_spaces_fixed. destruct Hl; [done|auto]. }
  rewrite (Hfix _ Hall), Hfix by (by apply Forall_rev).
  by rewrite rev_involutive, join_runes.
Qed.

Lemma is_digit_digit c : is_digit c = digit (byteZ c).
Proof.
  unfold is_digit, digit, in_range, ch.
  destruct (Z.ltb_spec (byteZ c) (byteZ "0")), (Z.ltb_spec (byteZ "9") (byteZ c)),
    (Z.leb_spec (byteZ "0") (byteZ c)), (Z.leb_spec (byteZ c) (byteZ "9")); simpl; lia.
Qed.

Lemma digit_prefix_all_digits s :
  Forall (fun c => is_digit c = true) (list_ascii_of_string s) -> digit_prefix s = s.
Proof.
  induction s as [|c s IH]; simpl; [done|]. intros H.
  apply Forall_cons in H as [-> H]. by rewrite IH.
Qed.

End class_strings.

(** ** The counter fields *)
Section counter_fields.

Ltac solve_sets_group :=
  repeat first
    [ apply sets_group_here
    | apply sets_group_first; [apply sets_group_here|reflexivity]
    | apply sets_group_later; [reflexivity|] ].

Lemma counter_cases_groups dir re i :
  (dir, re) ∈ counter_cases -> i = 1%nat \/ i = 2%nat -> sets_group i digit_comma re.
Proof.
  intros Hre Hi. unfold counter_cases in Hre.
  repeat (apply elem_of_cons in Hre as [[= -> ->]|Hre];
          [destruct Hi as [-> | ->];
           cbv [Status.reInSPI Status.reOutSPI Status.reInPrimary Status.reOutPrimary
                Status.reInAlt Status.reOutAlt Status.reInNoColon Status.reOutNoColon
                Status.reSPI Status.rePrimary Status.reAlt Status.reNoColon];
           cbn [Seq]; solve_sets_group|]).
  by apply elem_of_nil in Hre.
Qed.

Lemma strip_digit_comma s :
  Forall (fun c => digit_comma (byteZ c) = true) (list_ascii_of_string s) ->
  Forall (fun c => is_digit c = true) (list_ascii_of_string (stripCommas s)).
Proof.
  rewrite stripCommas_bytes. induction (list_ascii_of_string s) as [|c l IH]; intros H;
    [constructor|].
  apply Forall_cons in H as [Hc H]. cbn [List.filter].
  destruct (Ascii.eqb_spec c ","); simpl; [auto|].
  constructor; [|auto]. rewrite is_digit_digit.
  unfold digit_comma in Hc. apply orb_true_iff in Hc as [Hc|Hc]; [done|].
  apply Z.eqb_eq in Hc. exfalso. apply n. unfold ch, byteZ in Hc.
  apply N2Z.inj in Hc. apply (f_equal ascii_of_N) in Hc.
  by rewrite !ascii_N_embedding in Hc.
Qed.

End counter_fields.

(** X10. The two fields a counter pattern captures are non-empty and
    hold digits and commas only. With the commas stripped, nothing but
    digits is left, so [parseInt64] reads the whole field: the count stored
    is the number the digits of the field denote, reduced into the [int64]
    range. *)
Theorem X10_counter_fields_are_numbers dir re line i :
  (dir, re) ∈ counter_cases -> MatchString re line = true ->
  i = 1%nat \/ i = 2%nat ->
  submatch re line i <> "" /\
  Forall (fun c => digit_comma (byteZ c) = true)
         (list_ascii_of_string (submatch re line i)) /\
  digit_prefix (stripCommas (submatch re line i)) = stripCommas (submatch re line i) /\
  parseInt64 (stripCommas (submatch re line i))
    = wrap64 (decimal (stripCommas (submatch re line i))).
Proof.
  intros Hre Hm Hi.
  assert (Hc : matches_class digit_comma (submatch re line i)).
  { apply submatch_group_class; [by eapply counter_cases_groups|destruct Hi as [-> | ->]; lia|done]. }
  apply (class_bytes _ _ digit_comma_ascii) in Hc as [Hne Hall].
  split; [done|]. split; [done|].
  pose proof (digit_prefix_all_digits _ (strip_digit_comma _ Hall)) as Hp.
  split; [done|]. by rewrite parseInt64_spec, Hp.
Qed.

Lemma X10_witness :
  submatch Status.reOutPrimary "  out: 2,048 bytes, 16 packets" 1 <> "" /\
  parseInt64 (stripCommas (submatch Status.reOutPrimary "  out: 2,048 bytes, 16 packets" 1))
    = wrap64 (decimal (stripCommas
                (submatch Status.reOutPrimary "  out: 2,048 bytes, 16 packets" 1))).
Proof.
  destruct (X10_counter_fields_are_numbers false Status.reOutPrimary
              "  out: 2,048 bytes, 16 packets" 1) as (H1 & _ & _ & H4).
  - unfold counter_cases. do 3 right. left.
  - vm_compute. reflexivity.
  - by left.
  - by split.
Defined.

(** ** The names of the primary and of the fallback text *)
Section listing_names.

Ltac solve_sets_group :=
  repeat first
    [ apply sets_group_here
    | apply sets_group_first; [apply sets_group_here|reflexivity]
    | apply sets_group_later; [reflexivity|] ].

Lemma sets_reChildTunnel : sets_group 1 name_cls ListConns.reChildTunnel.
Proof. unfold ListConns.reChildTunnel; cbn [Seq]; solve_sets_group. Qed.
Lemma sets_reChildLine : sets_group 1 name_cls_fold ListConns.reChildLine.
Proof. unfold ListConns.reChildLine; cbn [Seq]; solve_sets_group. Qed.
Lemma sets_ListSas_reBrace : sets_group 1 name_cls ListSas.reBrace.
Proof. unfold ListSas.reBrace; cbn [Seq]; solve_sets_group. Qed.
Lemma sets_ListSas_reChildSa : sets_group 1 name_cls ListSas.reChildSa.
Proof. unfold ListSas.reChildSa; cbn [Seq]; solve_sets_group. Qed.
Lemma sets_ListSas_reQuoted : sets_group 1 not_quote ListSas.reQuoted.
Proof. unfold ListSas.reQuoted; cbn [Seq]; solve_sets_group. Qed.

(** Where the names of [parseChildrenFromListConns] come from. *)
Lemma elem_of_parseChildrenFromListConns text n :
  n ∈ parseChildrenFromListConns text ->
  (exists m, m ∈ FindAllStringSubmatch ListConns.reChildTunnel text /\ n = sub m 1) \/
  (exists tok, n = strings.TrimSpace tok /\ n <> "") \/
  (exists line, MatchString ListConns.reChildLine line = true /\
     n = submatch ListConns.reChildLine line 1).
Proof.
  unfold parseChildrenFromListConns. rewrite !elem_of_app.
  intros [[H|H]|H].
  - left. by apply elem_of_collect in H.
  - right; left. apply list_elem_of_In, in_flat_map in H as (line & _ & H).
    destruct (FindStringSubmatch ListConns.reChildren line) as [m|]; [|done].
    apply in_flat_map in H as (tok & _ & H). cbv zeta in H.
    destruct (String.eqb_spec (strings.TrimSpace tok) ""); [done|].
    destruct H as [<-|[]]. by exists tok.
  - right; right. apply list_elem_of_In, in_flat_map in H as (line & _ & H).
    exists line. unfold submatch, MatchString. unfold FindStringSubmatch in *.
    destruct (search ListConns.reChildLine [] (runes line)) as [f|]; [|done].
    simpl in H. by destruct H as [<-|[]].
Qed.

Lemma primary_name_trimmed text n :
  n ∈ parseChildrenFromListConns text -> n <> "" /\ strings.TrimSpace n = n.
Proof.
  intros H. apply elem_of_parseChildrenFromListConns in H
    as [(m & Hm & ->)|[(tok & -> & Hne)|(line & Hm & ->)]].
  - pose proof (FindAll_group_class 1 _ _ _ _ sets_reChildTunnel ltac:(lia) Hm) as Hc.
    split; [apply Hc|]. by apply (TrimSpace_class name_cls); [apply name_cls_not_space|].
  - split; [done|apply TrimSpace_idem].
  - pose proof (submatch_group_class 1 _ _ _ sets_reChildLine ltac:(lia) Hm) as Hc.
    split; [apply Hc|]. by apply (TrimSpace_class name_cls_fold);
      [apply name_cls_fold_not_space|].
Qed.

End listing_names.

(** X11. Every name [parseChildrenFromListConns] returns is non-empty
    and has no surrounding white space: the trimming of the handler leaves
    the names of the primary text as they are and drops none. *)
Theorem X11_primary_names_are_trimmed text n :
  n ∈ parseChildrenFromListConns text -> n <> "" /\ strings.TrimSpace n = n.
Proof. apply primary_name_trimmed. Qed.

(** X12. When the primary text yields a name, the listing holds exactly
    the names found in the primary text, whatever the secondary text is,
    and it is not empty. *)
Theorem X12_listing_of_primary_names connsOut sasOut :
  parseChildrenFromListConns connsOut <> [] ->
  (forall n, n ∈ childrenJSONHandler connsOut sasOut <->
             n ∈ parseChildrenFromListConns connsOut) /\
  childrenJSONHandler connsOut sasOut <> [].
Proof.
  intros Hne. destruct (childrenJSONHandler_spec connsOut sasOut) as (Hin & _ & _).
  destruct (parseChildrenFromListConns connsOut) as [|m0 ms] eqn:E; [done|].
  cbn [List.length Nat.eqb] in Hin. rewrite <- E in *.
  assert (Hiff : forall n, n ∈ childrenJSONHandler connsOut sasOut <->
                           n ∈ parseChildrenFromListConns connsOut).
  { intros n. rewrite Hin. split.
    - intros (_ & m & Hm & <-). by rewrite (proj2 (primary_name_trimmed _ _ Hm)).
    - intros Hn. destruct (primary_name_trimmed _ _ Hn) as [Hn1 Hn2]. split; [done|].
      by exists n. }
  split; [done|]. intros Hnil.
  assert (Hm0 : m0 ∈ childrenJSONHandler connsOut sasOut)
    by (apply Hiff; rewrite E; by left).
  rewrite Hnil in Hm0. by apply elem_of_nil in Hm0.
Qed.

Lemma X11_witness :
  "site-a" <> "" /\ strings.TrimSpace "site-a" = "site-a".
Proof.
  apply (X11_primary_names_are_trimmed "  site-a: TUNNEL, IPsec" "site-a").
  assert (Hl : parseChildrenFromListConns "  site-a: TUNNEL, IPsec" = ["site-a"])
    by (vm_compute; reflexivity).
  rewrite Hl. by left.
Defined.

Lemma X12_witness :
  "b" ∈ childrenJSONHandler "children: b, a" "x{1}:" <->
  "b" ∈ parseChildrenFromListConns "children: b, a".
Proof.
  refine (proj1 (X12_listing_of_primary_names "children: b, a" "x{1}:" _) "b").
  assert (Hl : parseChildrenFromListConns "children: b, a" = ["b"; "a"])
    by (vm_compute; reflexivity).
  rewrite Hl. discriminate.
Defined.

(** X13. For every pair of texts the listing is in increasing order and
    holds no name twice; it is empty exactly when the primary text yields
    no name and every name found in the secondary text is white space
    only. *)
Theorem X13_listing_sorted_and_empty_case connsOut sasOut :
  StronglySorted sort.string_le (childrenJSONHandler connsOut sasOut) /\
  NoDup (childrenJSONHandler connsOut sasOut) /\
  (childrenJSONHandler connsOut sasOut = [] <->
   parseChildrenFromListConns connsOut = [] /\
   forall m, m ∈ parseChildrenFromListSas sasOut -> strings.TrimSpace m = "").
Proof.
  destruct (childrenJSONHandler_spec connsOut sasOut) as (Hin & Hs & Hd).
  split; [done|]. split; [done|].
  destruct (parseChildrenFromListConns connsOut) as [|m0 ms] eqn:E.
  - cbn [List.length Nat.eqb] in Hin. split.
    + intros Hnil. split; [done|]. intros m Hm.
      destruct (String.eqb_spec (strings.TrimSpace m) "") as [|Hne]; [done|].
      assert (H : strings.TrimSpace m ∈ childrenJSONHandler connsOut sasOut)
        by (apply Hin; split; [done|by exists m]).
      rewrite Hnil in H. by apply elem_of_nil in H.
    + intros [_ Hall]. destruct (childrenJSONHandler connsOut sasOut) as [|n l]; [done|].
      destruct (proj1 (Hin n) ltac:(by left)) as (Hne & m & Hm & Ht).
      rewrite (Hall m Hm) in Ht. congruence.
  - cbn [List.length Nat.eqb] in Hin. split; [|by intros [? _]].
    intros Hnil. exfalso.
    assert (Hm0 : m0 ∈ parseChildrenFromListConns connsOut) by (rewrite E; by left).
    destruct (primary_name_trimmed _ _ Hm0) as [Hn1 Hn2].
    assert (H : m0 ∈ childrenJSONHandler connsOut sasOut).
    { apply Hin. split; [done|]. exists m0. split; [by left|done]. }
    rewrite Hnil in H. by apply elem_of_nil in H.
Qed.

(** X14. Every name [parseChildrenFromListSas] returns is non-empty;
    it is made of bytes of [[A-Za-z0-9._:-]] only, unless the quoted
    pattern captured it, and then it holds no apostrophe. *)
Theorem X14_fallback_names text n :
  n ∈ parseChildrenFromListSas text ->
  n <> "" /\
  (Forall (fun c => name_cls (byteZ c) = true) (list_ascii_of_string n) \/
   (exists m, m ∈ FindAllStringSubmatch ListSas.reQuoted text /\ n = sub m 1) /\
   matches_class not_quote n).
Proof.
  intros H. apply elem_of_parseChildrenFromListSas in H as (re & m & Hre & Hm & ->).
  unfold fallback_patterns in Hre.
  apply elem_of_cons in Hre as [->|Hre]; [|apply elem_of_cons in Hre as [->|Hre]].
  - pose proof (FindAll_group_class 1 _ _ _ _ sets_ListSas_reBrace ltac:(lia) Hm) as Hc.
    apply (class_bytes _ _ name_cls_ascii) in Hc as [Hne Hall]. auto.
  - pose proof (FindAll_group_class 1 _ _ _ _ sets_ListSas_reChildSa ltac:(lia) Hm) as Hc.
    apply (class_bytes _ _ name_cls_ascii) in Hc as [Hne Hall]. auto.
  - apply list_elem_of_singleton in Hre as ->.
    pose proof (FindAll_group_class 1 _ _ _ _ sets_ListSas_reQuoted ltac:(lia) Hm) as Hc.
    split; [apply Hc|]. right. split; [by exists m|done].
Qed.

Lemma X14_witness :
  "x" <> "" /\
  (Forall (fun c => name_cls (byteZ c) = true) (list_ascii_of_string "x") \/
   (exists m, m ∈ FindAllStringSubmatch ListSas.reQuoted "x{1}: up" /\ "x" = sub m 1) /\
   matches_class not_quote "x").
Proof.
  apply (X14_fallback_names "x{1}: up" "x").
  assert (Hl : parseChildrenFromListSas "x{1}: up" = ["x"]) by (vm_compute; reflexivity).
  rewrite Hl. by left.
Defined.

(** ** The debug tracer and the active list *)
Section debug_tracer.

Lemma matches_any_spec reList line :
  matches_any reList line = true <->
  exists re, re ∈ reList /\ MatchString re line = true.
Proof.
  induction reList as [|re0 reList IH]; simpl.
  - split; [done|]. intros (re & Hre & _). by apply elem_of_nil in Hre.
  - destruct (MatchString re0 line) eqn:E.
    + split; [|done]. intros _. exists re0. split; [by left|done].
    + rewrite IH. split.
      * intros (re & Hre & Hm). exists re. split; [by right|done].
      * intros (re & Hre & Hm). apply elem_of_cons in Hre as [->|Hre]; [congruence|].
        by exists re.
Qed.

(** The tracer reports a line exactly when the line gives a name to the
    active list. *)
Lemma matches_any_active line :
  matches_any debug_reList line =
  match active_capture line with Some _ => true | None => false end.
Proof.
  unfold active_capture, active_patterns, debug_reList; simpl.
  by destruct (MatchString ActiveSas.reChildHashESP line),
    (MatchString ActiveSas.reBrace line), (MatchString ActiveSas.reChildSa line),
    (MatchString ActiveSas.reQuoted line), (MatchString ActiveSas.reInstalled line),
    (MatchString ActiveSas.reInstalledLog line),
    (MatchString ActiveSas.reTolerantHeader line).
Qed.

Lemma fold_matched (f : string -> bool) ls : forall acc,
  fold_left (fun matched line => if f line then matched ++ [line] else matched) ls acc
  = acc ++ List.filter f ls.
Proof.
  induction ls as [|l ls IH]; intros acc; simpl.
  - by rewrite app_nil_r.
  - rewrite IH. destruct (f l); [|done]. by rewrite <- app_assoc.
Qed.

Lemma Join_nonempty x l sep : x <> "" -> strings.Join (x :: l) sep <> "".
Proof.
  intros Hx. destruct l as [|y l]; [done|]. cbn [strings.Join].
  destruct x; [done|]. by rewrite append_cons.
Qed.

Lemma filter_nil_iff {A} (f : A -> bool) (l : list A) :
  List.filter f l = [] <-> Forall (fun x => f x = false) l.
Proof.
  induction l as [|x l IH]; simpl; [split; [constructor|done]|].
  destruct (f x) eqn:E.
  - split; [done|]. intros H. apply Forall_cons in H as [H _]. congruence.
  - rewrite IH. split; [by constructor|]. intros H. by apply Forall_cons in H as [_ H].
Qed.

Lemma parseActive_nil_iff text :
  parseActiveChildrenFromListSas text = [] <->
  Forall (fun line => active_capture line = None) (strings.Split text "010").
Proof.
  split.
  - intros Hnil. apply Forall_forall. intros line Hl.
    destruct (active_capture line) as [n|] eqn:E; [|done].
    assert (H : n ∈ parseActiveChildrenFromListSas text)
      by (apply elem_of_parseActive; by exists line).
    rewrite Hnil in H. by apply elem_of_nil in H.
  - intros Hall. destruct (parseActiveChildrenFromListSas text) as [|n l] eqn:E; [done|].
    assert (H : n ∈ parseActiveChildrenFromListSas text) by (rewrite E; by left).
    apply elem_of_parseActive in H as (line & Hl & Hc).
    rewrite Forall_forall in Hall. rewrite (Hall line Hl) in Hc. done.
Qed.

End debug_tracer.

(** X15. The debug tracer and the active list agree: when the active
    list of the text is empty, the tracer writes the no-match message
    followed by the whole text; otherwise it writes, one per line and in
    their order in the text, exactly the lines from which the active list
    takes a name. Its output is never empty. *)
Theorem X15_debug_tracer_agrees_with_active_list out :
  (parseActiveChildrenFromListSas out = [] ->
   debugActiveLinesHandler out = no_match_message +:+ out) /\
  (parseActiveChildrenFromListSas out <> [] ->
   debugActiveLinesHandler out =
     strings.Join
       (List.filter (fun line => match active_capture line with
                                 | Some _ => true | None => false end)
                    (strings.Split out "010"))
       (String "010" "")) /\
  debugActiveLinesHandler out <> "".
Proof.
  unfold debugActiveLinesHandler. cbv zeta. rewrite fold_matched, app_nil_l.
  rewrite (filter_ext _ _ matches_any_active).
  set (reported := List.filter _ _).
  assert (Hrep : reported = [] <-> parseActiveChildrenFromListSas out = []).
  { rewrite parseActive_nil_iff. unfold reported. rewrite filter_nil_iff.
    apply Forall_iff. intros line. by destruct (active_capture line). }
  destruct reported as [|l ls] eqn:E.
  - split; [done|]. split; [|done]. intros H. exfalso. by apply H, Hrep.
  - cbn [List.length Nat.eqb]. split; [intros H; by apply Hrep in H|]. split; [done|].
    apply Join_nonempty. intros ->.
    assert (Hin : In "" (List.filter (fun line => match active_capture line with
                                       | Some _ => true | None => false end)
                           (strings.Split out "010"))).
    { fold reported. rewrite E. by left. }
    apply filter_In in Hin as [_ Hin]. vm_compute in Hin. discriminate Hin.
Qed.

(** ** The header patterns exclude each other *)
Section header_exclusion.
Local Open Scope Z_scope.

Lemma matches_shape r c cs c' cs' :
  matches r c cs c' cs' -> exists its, after c = its ++ after c' /\ shape r its.
Proof.
  induction 1 as [c cs|p it bef aft cs Hp|r1 r2 c cs c1 cs1 c2 cs2 _ IH1 _ IH2
                   |r1 r2 c cs c' cs' _ IH|r1 r2 c cs c' cs' _ IH|g p its bef aft cs Hall
                   |i r c cs c' cs' _ IH|ml c cs Hb|c cs He|c cs Hw]; simpl;
    try (by exists []).
  - exists [it]. split; [done|]. by exists it.
  - destruct IH1 as (its1 & Ha1 & Hs1), IH2 as (its2 & Ha2 & Hs2).
    exists (its1 ++ its2). split; [by rewrite Ha1, Ha2, app_assoc|]. by exists its1, its2.
  - destruct IH as (its & Ha & Hs). exists its. auto.
  - destruct IH as (its & Ha & Hs). exists its. auto.
  - by exists its.
  - done.
Qed.

(** A pattern that starts with [^] matches from the first rune of the
    line. *)
Lemma anchored_shape rest line :
  MatchString (Cat (Bol false) rest) line = true ->
  exists its tail, runes line = its ++ tail /\ shape rest its.
Proof.
  unfold MatchString. intros Hm.
  destruct (search (Cat (Bol false) rest) [] (runes line)) as [f|] eqn:E; [|done].
  apply search_sound in E as [He Hin]. simpl in Hin.
  apply exec_sound in He as (c' & cs' & Hmt & _).
  inversion Hmt as [| |r1 r2 c0 cs0 c1 cs1 c2 cs2 Hb Hr| | | | | | |]; subst.
  inversion Hb as [| | | | | | |ml c0 cs0 Hprev| |]; subst.
  destruct Hprev as [Hprev|[? _]]; [|done].
  assert (Hbef : before (m_start f) = []).
  { destruct (before (m_start f)) as [|it bef] eqn:Eb; [done|]. exfalso.
    unfold prev_rune in Hprev. rewrite Eb in Hprev.
    pose proof (runes_items line) as Hit. rewrite <- Hin in Hit. unfold input in Hit.
    rewrite Eb in Hit. simpl in Hit.
    apply Forall_app in Hit as [Hit _]. apply Forall_app in Hit as [_ Hit].
    apply Forall_cons in Hit as [[Hit _] _]. lia. }
  unfold input in Hin. rewrite Hbef in Hin. simpl in Hin.
  apply matches_shape in Hr as (its & Ha & Hs). exists its, (after c').
  by rewrite <- Hin, Ha.
Qed.

Lemma run_of_app p a b :
  Forall (fun it => p (rune it) = true) a -> run_of p (a ++ b) = a ++ run_of p b.
Proof. induction 1 as [|it a Hit _ IH]; simpl; [done|]. by rewrite Hit, IH. Qed.

Lemma after_run_app p a b :
  Forall (fun it => p (rune it) = true) a -> after_run p (a ++ b) = after_run p b.
Proof. induction 1 as [|it a Hit _ IH]; simpl; [done|]. by rewrite Hit, IH. Qed.

Lemma run_of_stop p it l : p (rune it) = false -> run_of p (it :: l) = [].
Proof. simpl. by intros ->. Qed.

Lemma after_run_stop p it l : p (rune it) = false -> after_run p (it :: l) = it :: l.
Proof. simpl. by intros ->. Qed.

End header_exclusion.

Section header_signatures.
Local Open Scope Z_scope.

Lemma space_not_name r : space r = true -> name_cls r = false.
Proof.
  intros Hs. destruct (name_cls r) eqn:E; [|done].
  apply name_cls_not_space in E. unfold unicode.IsSpace in E. unfold space in Hs.
  repeat (apply orb_true_iff in Hs as [Hs|Hs]); apply Z.eqb_eq in Hs; subst; done.
Qed.

Lemma name_not_space r : name_cls r = true -> space r = false.
Proof.
  intros Hn. destruct (space r) eqn:E; [|done].
  apply space_not_name in E. congruence.
Qed.

Lemma space_not_brace r : space r = true -> r <> 123.
Proof.
  unfold space. intros Hs ->. done.
Qed.

Lemma run_of_cons p it l :
  p (rune it) = true -> run_of p (it :: l) = it :: run_of p l.
Proof. simpl. by intros ->. Qed.

Lemma after_run_cons p it l :
  p (rune it) = true -> after_run p (it :: l) = after_run p l.
Proof. simpl. by intros ->. Qed.

(** After a run of name characters that is followed by white space or by
    a rune outside the class, the run ends. *)
Lemma run_of_end sp it l :
  Forall (fun it => space (rune it) = true) sp -> name_cls (rune it) = false ->
  run_of name_cls (sp ++ it :: l) = [] /\
  after_run name_cls (sp ++ it :: l) = sp ++ it :: l.
Proof.
  intros Hsp Hit. destruct Hsp as [|s0 sp Hs0 _]; simpl.
  - by rewrite Hit.
  - by rewrite (space_not_name _ Hs0).
Qed.

Lemma head_rune_spaces sp it l :
  Forall (fun it => space (rune it) = true) sp -> rune it <> 123 ->
  head_rune (sp ++ it :: l) <> Some 123.
Proof.
  intros Hsp Hit. destruct Hsp as [|s0 sp Hs0 _]; simpl; intros [= H]; [done|].
  by apply space_not_brace in Hs0.
Qed.

Lemma lit_rune c it : (ch c =? rune it) = true -> rune it = ch c.
Proof. intros H. by apply Z.eqb_eq in H. Qed.

Ltac open_shape H :=
  cbn [shape Seq Str Lit Plus Quest] in H;
  repeat match goal with
  | H : exists _, _ |- _ => destruct H as [? H]
  | H : _ /\ _ |- _ => destruct H
  | H : _ \/ _ |- _ => destruct H
  end; subst;
  repeat match goal with
  | H : (ch _ =? rune _) = true |- _ => apply lit_rune in H
  end.

Ltac flatten_runes H :=
  rewrite <- ?app_assoc in H; cbn [app] in H; rewrite <- ?app_assoc in H; cbn [app] in H.

Ltac rune_is :=
  first [ assumption
        | by apply name_not_space
        | by apply space_not_name
        | match goal with H : rune ?it = _ |- _ (rune ?it) = _ => by rewrite H end ].

Ltac run_step :=
  match goal with
  | Hs : Forall (fun it => ?p (rune it) = true) ?a |- context [after_run ?p (?a ++ ?b)] =>
      rewrite (after_run_app p a b Hs)
  | Hs : Forall (fun it => ?p (rune it) = true) ?a |- context [run_of ?p (?a ++ ?b)] =>
      rewrite (run_of_app p a b Hs)
  | Hs : Forall (fun it => space (rune it) = true) ?a
    |- context [run_of name_cls (?a ++ ?it :: ?l)] =>
      let E1 := fresh in let E2 := fresh in
      destruct (run_of_end a it l Hs ltac:(rune_is)) as [E1 E2];
      rewrite ?E1, ?E2; clear E1 E2
  | |- context [after_run ?p (?it :: ?l)] =>
      first [ rewrite (after_run_cons p it l) by rune_is
            | rewrite (after_run_stop p it l) by rune_is ]
  | |- context [run_of ?p (?it :: ?l)] =>
      first [ rewrite (run_of_cons p it l) by rune_is
            | rewrite (run_of_stop p it l) by rune_is ]
  end.

Ltac rewrite_runes :=
  repeat match goal with H : rune ?it = _ |- context [rune ?it] => rewrite H end.

Ltac header_runs H :=
  let its := fresh "its" in let tail := fresh "tail" in
  let Hr := fresh "Hr" in let Hs := fresh "Hs" in
  cbn [Seq] in H; apply anchored_shape in H as (its & tail & Hr & Hs);
  open_shape Hs; flatten_runes Hr; rewrite Hr; unfold header_sig; cbv zeta;
  repeat run_step; cbn [fst snd].

Lemma hash_sig line :
  MatchString Status.reHeaderHashESP line = true ->
  last (header_sig (runes line)).1.1 = Some 58 /\ (header_sig (runes line)).1.2 <> Some 123.
Proof.
  unfold Status.reHeaderHashESP. intros H. header_runs H. split.
  - rewrite map_cons, map_app, app_comm_cons. cbn [map]. rewrite last_snoc.
    by rewrite_runes.
  - apply head_rune_spaces; [done|]. by rewrite_runes.
Qed.

Lemma brace_sig line :
  MatchString Status.reHeaderBrace line = true ->
  (header_sig (runes line)).1.2 = Some 123 \/
  ((header_sig (runes line)).1.1 = [99; 104; 105; 108; 100] /\
   exists r, (header_sig (runes line)).2 = Some r /\ name_cls r = true).
Proof.
  unfold Status.reHeaderBrace. intros H. header_runs H.
  all: first [ left; cbn [head_rune]; by rewrite_runes
             | right; split; [cbn [map]; by rewrite_runes|]; eexists; split;
               [cbn [head_rune]; reflexivity|done] ].
Qed.

Lemma childsa_sig line :
  MatchString Status.reHeaderChildSA line = true ->
  (header_sig (runes line)).1.1 = [67; 72; 73; 76; 68; 95; 83; 65] /\
  (header_sig (runes line)).1.2 <> Some 123.
Proof.
  unfold Status.reHeaderChildSA. intros H. header_runs H.
  split; [cbn [map]; by rewrite_runes|].
  cbn [head_rune]. intros [= Hb]. eapply space_not_brace; [|exact Hb]. done.
Qed.

Lemma quoted_sig line :
  MatchString Status.reHeaderQuoted line = true ->
  (header_sig (runes line)).1.1 = [99; 104; 105; 108; 100] /\
  (header_sig (runes line)).1.2 <> Some 123 /\
  (header_sig (runes line)).2 = Some 39.
Proof.
  unfold Status.reHeaderQuoted. intros H. header_runs H.
  split; [cbn [map]; by rewrite_runes|]. split.
  - cbn [head_rune]. intros [= Hb]. eapply space_not_brace; [|exact Hb]. done.
  - cbn [head_rune]. by rewrite_runes.
Qed.

(** At most one header pattern matches a line. *)
Lemma header_exclusive i j re1 re2 line :
  header_patterns !! i = Some re1 -> header_patterns !! j = Some re2 ->
  MatchString re1 line = true -> MatchString re2 line = true -> i = j.
Proof.
  intros Hi Hj H1 H2.
  destruct i as [|[|[|[|i]]]]; simpl in Hi; try done;
    destruct j as [|[|[|[|j]]]]; simpl in Hj; try done;
    injection Hi as <-; injection Hj as <-; exfalso.
  all: repeat match goal with
       | H : MatchString Status.reHeaderHashESP _ = true |- _ =>
           apply hash_sig in H as [? ?]
       | H : MatchString Status.reHeaderBrace _ = true |- _ =>
           apply brace_sig in H as [?|[? (? & ? & ?)]]
       | H : MatchString Status.reHeaderChildSA _ = true |- _ =>
           apply childsa_sig in H as [? ?]
       | H : MatchString Status.reHeaderQuoted _ = true |- _ =>
           apply quoted_sig in H as (? & ? & ?)
       end.
  all: try congruence.
  all: try (match goal with
            | H : _ = ?l, H' : last _ = Some _ |- _ => rewrite H in H'; by vm_compute in H'
            end).
  all: match goal with
       | H : _ = Some ?r, H' : _ = Some 39, Hn : name_cls ?r = true |- _ =>
           rewrite H in H'; injection H' as ->; by vm_compute in Hn
       end.
Qed.


End header_signatures.

Section header_order.

Lemma first_match_unique ps re line :
  re ∈ ps -> MatchString re line = true ->
  (forall re', re' ∈ ps -> MatchString re' line = true -> re' = re) ->
  first_match ps line = Some (submatch re line 1).
Proof.
  induction ps as [|p ps IH]; intros Hin Hm Hu; [by apply elem_of_nil in Hin|].
  simpl. destruct (MatchString p line) eqn:E.
  - by rewrite (Hu p (list_elem_of_here _ _) E).
  - apply elem_of_cons in Hin as [->|Hin]; [congruence|].
    apply IH; [done..|]. intros re' Hre'. apply Hu. by apply list_elem_of_further.
Qed.

Lemma first_match_none ps line :
  (forall re, re ∈ ps -> MatchString re line = false) -> first_match ps line = None.
Proof.
  induction ps as [|p ps IH]; intros Hn; [done|]. simpl.
  rewrite (Hn p (list_elem_of_here _ _)). apply IH. intros re Hre.
  apply Hn. by apply list_elem_of_further.
Qed.

Lemma header_unique re re' line :
  re ∈ header_patterns -> re' ∈ header_patterns ->
  MatchString re line = true -> MatchString re' line = true -> re' = re.
Proof.
  intros [i Hi]%list_elem_of_lookup [j Hj]%list_elem_of_lookup Hm Hm'.
  pose proof (header_exclusive i j re re' line Hi Hj Hm Hm') as <-. congruence.
Qed.

End header_order.

(** X16. No line matches two of the four header patterns of the status
    loop, so the order of the header cases is immaterial: trying the
    patterns in any other order selects the same name for every line. *)
Theorem X16_header_cases_in_any_order (ps : list regex) (line : string) :
  ps ≡ₚ header_patterns -> first_match ps line = header_capture line.
Proof.
  intros Hp. unfold header_capture.
  destruct (existsb (fun re => MatchString re line) header_patterns) eqn:E.
  - apply existsb_exists in E as (re & Hin%list_elem_of_In & Hm).
    rewrite (first_match_unique header_patterns re line Hin Hm).
    + apply first_match_unique; [by rewrite Hp|done|].
      intros re' Hre' Hm'. rewrite Hp in Hre'. by apply (header_unique re re' line).
    + intros re' Hre' Hm'. by apply (header_unique re re' line).
  - assert (Hn : forall re, re ∈ header_patterns -> MatchString re line = false).
    { intros re Hre. destruct (MatchString re line) eqn:Em; [|done].
      assert (existsb (fun re => MatchString re line) header_patterns = true) as Hx; [|congruence].
      apply existsb_exists. exists re. split; [by apply list_elem_of_In|done]. }
    rewrite (first_match_none header_patterns line Hn).
    apply first_match_none. intros re Hre. apply Hn. by rewrite <- Hp.
Qed.

Lemma X16_witness :
  first_match (reverse header_patterns) "child tun{1}:" = header_capture "child tun{1}:".
Proof. apply X16_header_cases_in_any_order. apply reverse_Permutation. Defined.

(** ** Instances of the listing and tracer properties *)

Lemma X13_witness : childrenJSONHandler "" "child ' '" = [].
Proof.
  apply (X13_listing_sorted_and_empty_case "" "child ' '").
  split; [vm_compute; reflexivity|].
  assert (Hl : parseChildrenFromListSas "child ' '" = [" "]) by (vm_compute; reflexivity).
  rewrite Hl. intros m Hm. apply list_elem_of_singleton in Hm as ->.
  vm_compute. reflexivity.
Defined.

Lemma X15_witness :
  debugActiveLinesHandler "idle" = no_match_message +:+ "idle" /\
  debugActiveLinesHandler ("a{1}:" +:+ String "010" "idle") = "a{1}:".
Proof.
  split.
  - apply (X15_debug_tracer_agrees_with_active_list "idle"). vm_compute. reflexivity.
  - destruct (X15_debug_tracer_agrees_with_active_list ("a{1}:" +:+ String "010" "idle"))
      as (_ & H & _).
    rewrite H; [vm_compute; reflexivity|].
    assert (Hl : parseActiveChildrenFromListSas ("a{1}:" +:+ String "010" "idle") = ["a"])
      by (vm_compute; reflexivity).
    rewrite Hl. discriminate.
Defined.
